(** * Robot-soccer physics kernel: ball dynamics and differential-drive robot

    A shallow embedding of [GameEngine/ball_model.py] and
    [GameEngine/robot_model.py].

    Numbers.  The Python code computes with floats; here every float is a
    real number ([R]) and every operation is the exact one, so rounding,
    overflow, infinities and NaN are outside the model.  What is kept of
    Python's arithmetic is its control behaviour: [x / y] raises
    [ZeroDivisionError] when [y] is zero, [x ** 2] is [x ^ 2], and
    [x ** 0.5] is the square root (the code only applies it to sums of
    squares and to a discriminant already tested to be non-negative).

    Effects.  Both models are objects mutated in place by methods that may
    raise.  A method is a function from the object's state to the state it
    leaves behind together with how it ended: a returned value or a raised
    exception.  The state is kept in both cases, because an assignment made
    before the exception is still visible to the caller. *)

From Stdlib Require Import Reals Lra Lia ZArith String List Bool.
Import ListNotations.
Open Scope R_scope.

(** ** Exceptions and the method monad *)

Inductive exn : Set :=
| ZeroDivisionError
| ValueError
| IndexError
| TypeError.

Inductive outcome (A : Type) : Type :=
| Returned (a : A)
| Raised (e : exn).

Arguments Returned {A} a.
Arguments Raised {A} e.

Definition M (St A : Type) : Type := St -> St * outcome A.

Section Monad.
Context {St : Type}.

Definition ret {A} (a : A) : M St A := fun s => (s, Returned a).

Definition bind {A B} (c : M St A) (k : A -> M St B) : M St B :=
  fun s =>
    match c s with
    | (s', Returned a) => k a s'
    | (s', Raised e) => (s', Raised e)
    end.

Definition raise {A} (e : exn) : M St A := fun s => (s, Raised e).

(** [self]: the current state of the object. *)
Definition get : M St St := fun s => (s, Returned s).

(** An attribute assignment. *)
Definition modify (f : St -> St) : M St unit := fun s => (f s, Returned tt).

(** A call that does not touch [self] and may raise. *)
Definition lift {A} (o : outcome A) : M St A := fun s => (s, o).

(** Python's [x / y] on floats. *)
Definition div (x y : R) : M St R :=
  if Req_dec_T y 0 then raise ZeroDivisionError else ret (x / y).
End Monad.

Declare Scope method_scope.
Delimit Scope method_scope with method.
Notation "x <- c ;; k" := (bind c (fun x => k))
  (at level 61, c at next level, right associativity) : method_scope.
Notation "' p <- c ;; k" := (bind c (fun x => let 'p := x in k))
  (at level 61, p pattern, c at next level, right associativity) : method_scope.
Notation "c ;; k" := (bind c (fun _ => k))
  (at level 61, right associativity) : method_scope.
Infix "//" := div (at level 40, left associativity) : method_scope.
Open Scope method_scope.

(** The state a method leaves and the way it ended. *)
Definition state_after {St A} (c : M St A) (s : St) : St := fst (c s).
Definition ending {St A} (c : M St A) (s : St) : outcome A := snd (c s).

(** ** The body a ball or a robot collides with

    The ball's resolvers only use three members of [collision_object]:
    [get_position_components_wcs()], [get_velocity_components_wcs()] and
    [radius].  Any class that has them will do (the robot model, the
    [DummpPlayer] classes of the ball tests), hence a type class. *)

Module collision_object.
Class Collidable (T : Type) : Type := {
  get_position_components_wcs : T -> outcome (R * R);
  get_velocity_components_wcs : T -> outcome (R * R);
  radius : T -> R
}.
End collision_object.
Import collision_object.

(** ** numpy and Python helpers shared by both files *)

(** [np.sign] *)
Definition np_sign (a : R) : R :=
  if Rlt_dec a 0 then -1 else if Rlt_dec 0 a then 1 else 0.

(** [np.round] on a scalar: the nearest integer, a tie going to the even
    one. *)
Definition np_round (x : R) : R :=
  let f := Int_part x in
  let d := x - IZR f in
  if Rlt_dec d (1 / 2) then IZR f
  else if Rlt_dec (1 / 2) d then IZR (f + 1)
  else if Z.even f then IZR f else IZR (f + 1).

(** Python's [x % m] on floats: the remainder has the sign of [m]. *)
Definition py_mod (x m : R) : R := x - IZR (Int_part (x / m)) * m.

(** [np.arctan2(y, x)] *)
Definition np_arctan2 (y x : R) : R :=
  if Rlt_dec 0 x then atan (y / x)
  else if Rlt_dec x 0 then
    if Rle_dec 0 y then atan (y / x) + PI else atan (y / x) - PI
  else
    if Rlt_dec 0 y then PI / 2
    else if Rlt_dec y 0 then - (PI / 2)
    else 0.

(** The comparisons [x > y] and [x < y] where the code joins them with
    [and]. *)
Definition gtb (x y : R) : bool := if Rgt_dec x y then true else false.
Definition ltb (x y : R) : bool := if Rlt_dec x y then true else false.

(** Python's [min(a, b)]: [b] only when [b < a]. *)
Definition py_min (a b : R) : R := if Rlt_dec b a then b else a.

(** * ball_model.py *)

Module ball_model.

Inductive BallActions : Set := NO | KICK | RECEIVE.

(** The attributes of [BallBasicModel]. *)
Record BallBasicModel : Type := mkBall {
  _dt : R;
  _heading_angle : R;
  _x_vel : R;
  _y_vel : R;
  _max_vel : R;
  _x_pos : R;
  _y_pos : R;
  _friction : R;
  _mass : R;
  _vel_bounce_coefficient : R;
  radius : R
}.

Definition set_x_vel (v : R) (s : BallBasicModel) : BallBasicModel :=
  mkBall (_dt s) (_heading_angle s) v (_y_vel s) (_max_vel s) (_x_pos s)
         (_y_pos s) (_friction s) (_mass s) (_vel_bounce_coefficient s)
         (radius s).

Definition set_y_vel (v : R) (s : BallBasicModel) : BallBasicModel :=
  mkBall (_dt s) (_heading_angle s) (_x_vel s) v (_max_vel s) (_x_pos s)
         (_y_pos s) (_friction s) (_mass s) (_vel_bounce_coefficient s)
         (radius s).

Definition set_x_pos (v : R) (s : BallBasicModel) : BallBasicModel :=
  mkBall (_dt s) (_heading_angle s) (_x_vel s) (_y_vel s) (_max_vel s) v
         (_y_pos s) (_friction s) (_mass s) (_vel_bounce_coefficient s)
         (radius s).

Definition set_y_pos (v : R) (s : BallBasicModel) : BallBasicModel :=
  mkBall (_dt s) (_heading_angle s) (_x_vel s) (_y_vel s) (_max_vel s)
         (_x_pos s) v (_friction s) (_mass s) (_vel_bounce_coefficient s)
         (radius s).

(** [BallBasicModel.__init__] *)
Definition init (init_x_pos init_y_pos dt friction mass vel_bounce_coef
                 radius ball_max_vel : R) : BallBasicModel :=
  {| _dt := dt;
     _heading_angle := 0;
     _x_vel := 0;
     _y_vel := 0;
     _max_vel := ball_max_vel;
     _x_pos := init_x_pos;
     _y_pos := init_y_pos;
     _friction := friction;
     _mass := mass;
     _vel_bounce_coefficient := vel_bounce_coef;
     radius := radius |}.

(** [BallBasicModel(init_x_pos, init_y_pos)] with the default keyword
    arguments. *)
Definition init_default (init_x_pos init_y_pos : R) : BallBasicModel :=
  init init_x_pos init_y_pos 0.1 0.01 0.1 0.8 0.01 3.

(** [BallBasicModel.step] *)
Definition step : M BallBasicModel unit :=
  self <- get ;;
  let vel_sq := _x_vel self ^ 2 + _y_vel self ^ 2 in
  let vel := sqrt vel_sq in
  acc <- (- vel * _friction self) // _mass self ;;
  let acceleration_threshold := 0.01 in
  '(acc_x, acc_y) <-
    (if Rgt_dec (Rabs acc) acceleration_threshold then
       acc_x <- (acc * _x_vel self) // vel ;;
       acc_y <- (acc * _y_vel self) // vel ;;
       ret (acc_x, acc_y)
     else ret (0, 0)) ;;
  let dt_sq := _dt self ^ 2 in
  modify (fun s => set_x_pos (_x_pos s + (_x_vel s * _dt s + 0.5 * acc_x * dt_sq)) s) ;;
  modify (fun s => set_y_pos (_y_pos s + (_y_vel s * _dt s + 0.5 * acc_y * dt_sq)) s) ;;
  modify (fun s => set_x_vel (_x_vel s + acc_x * _dt s) s) ;;
  modify (fun s => set_y_vel (_y_vel s + acc_y * _dt s) s).

(** [BallBasicModel._wall_collision]; [collision_object] is not used. *)
Definition _wall_collision {T : Type} (collision_object : T)
           (wall_orientation : string) : M BallBasicModel unit :=
  (if (wall_orientation =? "vertical")%string
      || (wall_orientation =? "corner")%string
   then modify (fun s => set_x_vel (_x_vel s * (-1 * _vel_bounce_coefficient s)) s)
   else ret tt) ;;
  (if (wall_orientation =? "horizontal")%string
      || (wall_orientation =? "corner")%string
   then modify (fun s => set_y_vel (_y_vel s * (-1 * _vel_bounce_coefficient s)) s)
   else ret tt).

(** Lines 124-135 of [_elastic_collision_with_round_player]: the
    coefficients [a], [b], [c] of the quadratic whose roots are the
    intersections of the ball's line with the player's circle. *)
Definition intersection_quadratic (player_pos_x player_pos_y player_radius : R)
  : M BallBasicModel (R * R * R) :=
  self <- get ;;
  let move_vel_threshold := 0.001 in
  if Rge_dec (_x_vel self) move_vel_threshold then
    k <- _y_vel self // _x_vel self ;;
    let M := k * _x_pos self - _y_pos self + player_pos_y in
    let a := 1 + k ^ 2 in
    let b := -2 * (player_pos_x + M * k) in
    let c := player_pos_x ^ 2 + M ^ 2 - player_radius ^ 2 in
    ret (a, b, c)
  else
    let a := 1 in
    let b := -2 * player_pos_y in
    let c := player_pos_y ^ 2 + (_x_pos self - player_pos_x) ^ 2
             - player_radius ^ 2 in
    ret (a, b, c).

(** [BallBasicModel._elastic_collision_with_round_player] *)
Definition _elastic_collision_with_round_player {T : Type} `{Collidable T}
           (collision_object : T) : M BallBasicModel unit :=
  '(player_pos_x, player_pos_y) <-
    lift (get_position_components_wcs collision_object) ;;
  let player_radius := collision_object.radius collision_object in
  self <- get ;;
  let dx := _x_pos self - player_pos_x in
  let dy := _y_pos self - player_pos_y in
  let diff := sqrt (dx ^ 2 + dy ^ 2) in
  '(player_vx, player_vy) <-
    lift (get_velocity_components_wcs collision_object) ;;
  let move_vel_threshold := 0.001 in
  '(a, b, c) <- intersection_quadratic player_pos_x player_pos_y player_radius ;;
  let delta := b ^ 2 - 4 * a * c in
  if Rlt_dec delta 0 then ret tt
  else
    let delta_root := sqrt delta in
    sol1 <- (- b + delta_root) // (2 * a) ;;
    sol2 <- (- b - delta_root) // (2 * a) ;;
    '(x1, x2, y1, y2) <-
      (if Rge_dec (_x_vel self) move_vel_threshold then
         let get_y := fun _x_ =>
           q <- (_y_vel self * (_x_ - _x_pos self)) // _x_vel self ;;
           ret (_y_pos self + q) in
         y1 <- get_y sol1 ;;
         y2 <- get_y sol2 ;;
         ret (sol1, sol2, y1, y2)
       else ret (_x_pos self, _x_pos self, sol1, sol2)) ;;
    let dist_1 := (x1 - _x_pos self) ^ 2 + (y1 - _y_pos self) ^ 2 in
    let dist_2 := (x2 - _x_pos self) ^ 2 + (y2 - _y_pos self) ^ 2 in
    let '(collision_x, collision_y) :=
      if Rlt_dec dist_1 dist_2 then (x1, y1) else (x2, y2) in
    let '(m_x, m_y) := (_x_vel self, _y_vel self) in
    let '(n_x, n_y) := (collision_x - player_pos_x, collision_y - player_pos_y) in
    sp <- (m_x * n_x + m_y * n_y) // (n_x * n_x + n_y * n_y) ;;
    let r_x := m_x - 2 * sp * n_x in
    let r_y := m_y - 2 * sp * n_y in
    let vel_ := sqrt (_x_vel self ^ 2 + _y_vel self ^ 2) in
    let ref_vel := sqrt (r_x ^ 2 + r_y ^ 2) in
    qx <- (r_x * vel_) // ref_vel ;;
    let vel_x := player_vx + qx in
    qy <- (r_y * vel_) // ref_vel ;;
    let vel_y := player_vy + qy in
    modify (set_x_vel vel_x) ;;
    modify (set_y_vel vel_y).

(** [BallBasicModel._kick_collision]; [kick_vel] defaults to [None], on
    which [min] raises. *)
Definition _kick_collision {T : Type} `{Collidable T}
           (collision_object : T) (kick_vel : option R)
  : M BallBasicModel unit :=
  '(player_pos_x, player_pos_y) <-
    lift (get_position_components_wcs collision_object) ;;
  self <- get ;;
  let dx := _x_pos self - player_pos_x in
  let dy := _y_pos self - player_pos_y in
  let diff := sqrt (dx ^ 2 + dy ^ 2) in
  kick_vel <- match kick_vel with
              | Some v => ret (py_min v (_max_vel self))
              | None => raise TypeError
              end ;;
  vx <- (kick_vel * dx) // diff ;;
  modify (set_x_vel vx) ;;
  vy <- (kick_vel * dy) // diff ;;
  modify (set_y_vel vy).

(** [BallBasicModel._receive_collision] *)
Definition _receive_collision {T : Type} `{Collidable T}
           (collision_object : T) : M BallBasicModel unit :=
  '(vx, vy) <- lift (get_velocity_components_wcs collision_object) ;;
  modify (set_x_vel vx) ;;
  modify (set_y_vel vy).

(** [BallBasicModel.get_position] *)
Definition get_position (self : BallBasicModel) : R * R :=
  (_x_pos self, _y_pos self).

(** The class [DummpPlayer] of [test_collision_with_round_player]. *)
Record DummpPlayer : Type := mkDummpPlayer {
  x : R; y : R; vx : R; vy : R; r : R
}.

#[export] Instance DummpPlayer_Collidable : Collidable DummpPlayer := {|
  get_position_components_wcs := fun p => Returned (x p, y p);
  get_velocity_components_wcs := fun p => Returned (vx p, vy p);
  collision_object.radius := r
|}.

End ball_model.

(** * robot_model.py *)

Module robot_model.

(** Modelled from the spec: the enumeration [CollisionTypes] of
    [GameEngine/collisions.py], which is imported by [robot_model.py] but
    is not among the source files.  The spec lists the variants NONE,
    WALL_VERTICAL, WALL_HORIZONTAL, WALL_CORNER and PLAYER; the code
    calls the first one [CollisionTypes.NO]. *)
Inductive CollisionTypes : Set :=
| NO
| WALL_VERTICAL
| WALL_HORIZONTAL
| WALL_CORNER
| PLAYER.

Definition CollisionTypes_eqb (a b : CollisionTypes) : bool :=
  match a, b with
  | NO, NO | WALL_VERTICAL, WALL_VERTICAL | WALL_HORIZONTAL, WALL_HORIZONTAL
  | WALL_CORNER, WALL_CORNER | PLAYER, PLAYER => true
  | _, _ => false
  end.

(** The attributes of [RobotModel]; [vel_limit] is the constant pair
    (-inf, inf) and is never read. *)
Record RobotModel : Type := mkRobot {
  _dt : R;
  pointing_angle : R;
  vel : R;
  _cord_system_rot : R;
  _x_pos_EFCS : R;
  _y_pos_EFCS : R;
  radius : R;
  _wheel_radius : R;
  _axis_len : R
}.

Definition set_vel (v : R) (s : RobotModel) : RobotModel :=
  mkRobot (_dt s) (pointing_angle s) v (_cord_system_rot s) (_x_pos_EFCS s)
          (_y_pos_EFCS s) (radius s) (_wheel_radius s) (_axis_len s).

Definition set_x_pos_EFCS (v : R) (s : RobotModel) : RobotModel :=
  mkRobot (_dt s) (pointing_angle s) (vel s) (_cord_system_rot s) v
          (_y_pos_EFCS s) (radius s) (_wheel_radius s) (_axis_len s).

Definition set_y_pos_EFCS (v : R) (s : RobotModel) : RobotModel :=
  mkRobot (_dt s) (pointing_angle s) (vel s) (_cord_system_rot s)
          (_x_pos_EFCS s) v (radius s) (_wheel_radius s) (_axis_len s).

Definition set_pointing_angle (v : R) (s : RobotModel) : RobotModel :=
  mkRobot (_dt s) v (vel s) (_cord_system_rot s) (_x_pos_EFCS s)
          (_y_pos_EFCS s) (radius s) (_wheel_radius s) (_axis_len s).

(** [RobotModel._convert_field_CS_to_EFCS], as a function of the
    attribute it reads. *)
Definition _convert_field_CS_to_EFCS (cord_system_rot pos_x pos_y : R)
  : outcome (R * R) :=
  if Req_dec_T cord_system_rot 0 then Returned (pos_x, pos_y)
  else if Req_dec_T cord_system_rot PI then Returned (- pos_x, - pos_y)
  else Raised ValueError.

(** [RobotModel._convert_EFCS_to_field_CS] *)
Definition _convert_EFCS_to_field_CS (self : RobotModel) (pos_x pos_y : R)
  : outcome (R * R) :=
  if Req_dec_T (_cord_system_rot self) 0 then Returned (pos_x, pos_y)
  else if Req_dec_T (_cord_system_rot self) PI then Returned (- pos_x, - pos_y)
  else Raised ValueError.

(** [RobotModel.__init__]: a constructor that raises builds no object. *)
Definition init (init_x_pos init_y_pos dt robot_radius wheel_radius
                 cord_system_rot axis_len : R) : outcome RobotModel :=
  match _convert_field_CS_to_EFCS cord_system_rot init_x_pos init_y_pos with
  | Returned (x_init, y_init) =>
      Returned {| _dt := dt;
                  pointing_angle := 0;
                  vel := 0;
                  _cord_system_rot := cord_system_rot;
                  _x_pos_EFCS := x_init;
                  _y_pos_EFCS := y_init;
                  radius := robot_radius;
                  _wheel_radius := wheel_radius;
                  _axis_len := axis_len |}
  | Raised e => Raised e
  end.

(** [RobotBasicModel(x, y)] with the default keyword arguments. *)
Definition init_default (init_x_pos init_y_pos : R) : outcome RobotModel :=
  init init_x_pos init_y_pos 0.1 0.1 0.02 0 0.05.

(** [RobotModel.get_velocity_components_wcs] *)
Definition get_velocity_components_wcs (self : RobotModel) : outcome (R * R) :=
  _convert_EFCS_to_field_CS self (vel self * cos (pointing_angle self))
                                 (vel self * sin (pointing_angle self)).

(** [RobotModel.get_position_components_wcs] *)
Definition get_position_components_wcs (self : RobotModel) : outcome (R * R) :=
  _convert_EFCS_to_field_CS self (_x_pos_EFCS self) (_y_pos_EFCS self).

#[export] Instance RobotModel_Collidable : Collidable RobotModel := {|
  collision_object.get_position_components_wcs := get_position_components_wcs;
  collision_object.get_velocity_components_wcs := get_velocity_components_wcs;
  collision_object.radius := radius
|}.

(** The lambda [clip_angle] of [step] and of [step_with_restrictions]. *)
Definition clip_angle (a : R) : R :=
  if Rgt_dec (Rabs a) PI then a - 2 * PI * np_sign a else a.

(** The lambda [get_diff_angle] of [step_with_restrictions]. *)
Definition get_diff_angle (a b : R) : R :=
  Rabs (py_mod (a - b + PI) (2 * PI) - PI).

(** [RobotBasicModel.step] *)
Definition step (l_motor_speed r_motor_speed : R)
           (extra_action : ball_model.BallActions)
  : M RobotModel ball_model.BallActions :=
  self <- get ;;
  modify (set_vel ((_wheel_radius self / 2) * (l_motor_speed + r_motor_speed))) ;;
  let xn := _x_pos_EFCS self
            + (_wheel_radius self * _dt self / 2)
              * (l_motor_speed + r_motor_speed) * cos (pointing_angle self) in
  let yn := _y_pos_EFCS self
            + (_wheel_radius self * _dt self / 2)
              * (l_motor_speed + r_motor_speed) * sin (pointing_angle self) in
  w <- (_wheel_radius self * _dt self) // _axis_len self ;;
  let qn := pointing_angle self + w * (l_motor_speed - r_motor_speed) in
  modify (set_x_pos_EFCS xn) ;;
  modify (set_y_pos_EFCS yn) ;;
  modify (set_pointing_angle (clip_angle qn)) ;;
  ret extra_action.

(** [RobotBasicModel.step_with_restrictions] *)
Definition step_with_restrictions
           (angle_of_blockage_relative_to_ego restricted_angle
            l_motor_speed r_motor_speed : R) : M RobotModel unit :=
  let vel_simplified := (l_motor_speed + r_motor_speed) / 2 in
  self <- get ;;
  if Req_dec_T vel_simplified 0 then
    step l_motor_speed r_motor_speed ball_model.NO ;; ret tt
  else if Rgt_dec vel_simplified 0 then
    let angle_diff :=
      get_diff_angle angle_of_blockage_relative_to_ego (pointing_angle self) in
    if Rgt_dec angle_diff restricted_angle then
      step l_motor_speed r_motor_speed ball_model.NO ;; ret tt
    else
      step (l_motor_speed - vel_simplified) (r_motor_speed - vel_simplified)
           ball_model.NO ;; ret tt
  else if Rlt_dec vel_simplified 0 then
    let move_pointing_ang := clip_angle (pointing_angle self + PI) in
    let angle_diff :=
      get_diff_angle angle_of_blockage_relative_to_ego move_pointing_ang in
    if Rgt_dec angle_diff restricted_angle then
      step l_motor_speed r_motor_speed ball_model.NO ;; ret tt
    else
      step (l_motor_speed - vel_simplified) (r_motor_speed - vel_simplified)
           ball_model.NO ;; ret tt
  else ret tt.

(** Lines 124-149 of [collision_step]: the blocker angle and the
    restricted half-angle of the collision, with the rounding of the
    coordinates that a wall collision does on the way. *)
Definition collision_restriction {T : Type} `{Collidable T}
           (wall_collision players_collision : CollisionTypes)
           (collision_list : list T) : M RobotModel (R * R) :=
  self <- get ;;
  if CollisionTypes_eqb players_collision PLAYER then
    match collision_list with
    | [] => raise IndexError
    | collision_object :: _ =>
        '(other_pos_x, other_pos_y) <-
          lift (collision_object.get_position_components_wcs collision_object) ;;
        '(self_pos_x, self_pos_y) <- lift (get_position_components_wcs self) ;;
        let diff_x := self_pos_x - other_pos_x in
        let diff_y := self_pos_y - other_pos_y in
        ret (np_arctan2 diff_y diff_x, PI / 2)
    end
  else if negb (CollisionTypes_eqb wall_collision NO) then
    if CollisionTypes_eqb wall_collision WALL_VERTICAL then
      let angles := if Rgt_dec (_x_pos_EFCS self) 0
                    then (0, PI / 2) else (- PI, PI / 2) in
      modify (fun s => set_x_pos_EFCS (np_round (_x_pos_EFCS s)) s) ;;
      ret angles
    else if CollisionTypes_eqb wall_collision WALL_HORIZONTAL then
      let angles := if Rgt_dec (_y_pos_EFCS self) 0
                    then (PI / 2, PI / 2) else (- PI / 2, PI / 2) in
      modify (fun s => set_y_pos_EFCS (np_round (_y_pos_EFCS s)) s) ;;
      ret angles
    else
      let angles :=
        if gtb (_x_pos_EFCS self) 0 && gtb (_y_pos_EFCS self) 0
        then (PI / 4, 3 * PI / 4)
        else if gtb (_x_pos_EFCS self) 0 && ltb (_y_pos_EFCS self) 0
        then (- PI / 4, 3 * PI / 4)
        else if ltb (_x_pos_EFCS self) 0 && gtb (_y_pos_EFCS self) 0
        then (3 * PI / 4, 3 * PI / 4)
        else (-3 * PI / 4, 3 * PI / 4) in
      modify (fun s => set_x_pos_EFCS (np_round (_x_pos_EFCS s)) s) ;;
      modify (fun s => set_y_pos_EFCS (np_round (_y_pos_EFCS s)) s) ;;
      ret angles
  else raise ValueError.

(** [RobotBasicModel.collision_step] *)
Definition collision_step {T : Type} `{Collidable T}
           (wall_collision players_collision : CollisionTypes)
           (collision_list : list T)
           (l_motor_speed r_motor_speed : R)
           (extra_action : ball_model.BallActions)
  : M RobotModel ball_model.BallActions :=
  '(blocker_angle, restricted_angle) <-
    collision_restriction wall_collision players_collision collision_list ;;
  step_with_restrictions blocker_angle restricted_angle
                         l_motor_speed r_motor_speed ;;
  ret extra_action.

End robot_model.

(** * Notions used in the statements *)

(** [preserves f c]: whatever way the method [c] ends, the observation [f]
    of the object is the same after it as before it. *)
Definition preserves {St A X : Type} (f : St -> X) (c : M St A) : Prop :=
  forall s, f (state_after c s) = f s.

(** The [for i in range(n): obj.method()] loop of the test classes: the
    method is called [n] times and an exception ends the loop. *)
Fixpoint repeat_method {St : Type} (n : nat) (c : M St unit) : M St unit :=
  match n with
  | O => ret tt
  | S n' => c ;; repeat_method n' c
  end.

Section BallNotions.
Import ball_model.

(** The ball of [test_ball_wall_bouncing]: default construction, then
    [ball._x_vel, ball._y_vel = vx0, vy0]. *)
Definition ball_with_velocity (b : BallBasicModel) (vx0 vy0 : R)
  : BallBasicModel :=
  set_y_vel vy0 (set_x_vel vx0 b).

Definition speed (b : BallBasicModel) : R :=
  sqrt (_x_vel b ^ 2 + _y_vel b ^ 2).

(** Lines 75-79 of [step]: the four updates, for given acceleration
    components. *)
Definition advance (acc_x acc_y : R) (b : BallBasicModel) : BallBasicModel :=
  let dt_sq := _dt b ^ 2 in
  {| _dt := _dt b;
     _heading_angle := _heading_angle b;
     _x_vel := _x_vel b + acc_x * _dt b;
     _y_vel := _y_vel b + acc_y * _dt b;
     _max_vel := _max_vel b;
     _x_pos := _x_pos b + (_x_vel b * _dt b + 0.5 * acc_x * dt_sq);
     _y_pos := _y_pos b + (_y_vel b * _dt b + 0.5 * acc_y * dt_sq);
     _friction := _friction b;
     _mass := _mass b;
     _vel_bounce_coefficient := _vel_bounce_coefficient b;
     radius := radius b |}.

(** The factor by which one [step] scales the velocity of a ball built
    with the default [dt], [friction] and [mass]. *)
Definition default_damping (b : BallBasicModel) : R :=
  if Rgt_dec (speed b) 0.1 then 0.99 else 1.

(** The quadratic in [x] obtained by putting the line
    [y = y0 + k (x - x0)], [k = vy / vx], into the circle equation
    [(x - px)^2 + (y - py)^2 = pr^2]. *)
Definition slope_form_quadratic (px py pr : R) (b : BallBasicModel)
  : R * R * R :=
  let k := _y_vel b / _x_vel b in
  let M := k * _x_pos b - _y_pos b + py in
  (1 + k ^ 2, -2 * (px + M * k), px ^ 2 + M ^ 2 - pr ^ 2).

(** The quadratic in [y] obtained by putting the vertical line [x = x0]
    into the circle equation. *)
Definition vertical_form_quadratic (px py pr : R) (b : BallBasicModel)
  : R * R * R :=
  (1, -2 * py, py ^ 2 + (_x_pos b - px) ^ 2 - pr ^ 2).

(** The choice between the two as the spec words it: the slope form
    whenever [|vx| >= 0.001], the vertical form otherwise. *)
Definition spec_intersection_quadratic (px py pr : R) (b : BallBasicModel)
  : R * R * R :=
  if Rge_dec (Rabs (_x_vel b)) 0.001
  then slope_form_quadratic px py pr b
  else vertical_form_quadratic px py pr b.

Definition discriminant (q : R * R * R) : R :=
  let '(a, b, c) := q in b ^ 2 - 4 * a * c.

(** The rest of the rebound once the contact point is known: the
    statements of lines 156-172 of [_elastic_collision_with_round_player],
    on their own, so that the lemmas below can speak of them. *)
Definition reflect_at (player_pos_x player_pos_y player_vx player_vy
                       collision_x collision_y : R) (self : BallBasicModel)
  : M BallBasicModel unit :=
  let '(m_x, m_y) := (_x_vel self, _y_vel self) in
  let '(n_x, n_y) := (collision_x - player_pos_x, collision_y - player_pos_y) in
  sp <- (m_x * n_x + m_y * n_y) // (n_x * n_x + n_y * n_y) ;;
  let r_x := m_x - 2 * sp * n_x in
  let r_y := m_y - 2 * sp * n_y in
  let vel_ := sqrt (_x_vel self ^ 2 + _y_vel self ^ 2) in
  let ref_vel := sqrt (r_x ^ 2 + r_y ^ 2) in
  qx <- (r_x * vel_) // ref_vel ;;
  let vel_x := player_vx + qx in
  qy <- (r_y * vel_) // ref_vel ;;
  let vel_y := player_vy + qy in
  modify (set_x_vel vel_x) ;;
  modify (set_y_vel vel_y).

(** The mirror image of the vector [m] in the line through the origin
    that is normal to [n]: [m - 2 ((m.n) / (n.n)) n]. *)
Definition reflect (m_x m_y n_x n_y : R) : R * R :=
  let sp := (m_x * n_x + m_y * n_y) / (n_x * n_x + n_y * n_y) in
  (m_x - 2 * sp * n_x, m_y - 2 * sp * n_y).

End BallNotions.

Section RobotNotions.
Import robot_model.

(** The heading change that one [step] asks for, before the wrap. *)
Definition heading_change (rb : RobotModel) (l r : R) : R :=
  _wheel_radius rb * _dt rb / _axis_len rb * (l - r).

(** The robot after each of a sequence of [step] calls, one per pair of
    wheel speeds.  A call that raises leaves the robot as [step] left it
    and the next call goes on from there. *)
Fixpoint trajectory (ws : list (R * R)) (rb : RobotModel) : list RobotModel :=
  match ws with
  | [] => []
  | (l, r) :: ws' =>
      let rb' := state_after (step l r ball_model.NO) rb in
      rb' :: trajectory ws' rb'
  end.

(** [RobotBasicModel(x, y)]: the defaults, frame rotation 0. *)
Definition default_robot (x y : R) : RobotModel :=
  {| _dt := 0.1; pointing_angle := 0; vel := 0; _cord_system_rot := 0;
     _x_pos_EFCS := x; _y_pos_EFCS := y; radius := 0.1;
     _wheel_radius := 0.02; _axis_len := 0.05 |}.

(** The heading along which the robot would travel: its pointing angle
    when it drives forward, the opposite direction (wrapped) when it
    drives backward. *)
Definition travel_heading (rb : RobotModel) (average_speed : R) : R :=
  if Rgt_dec average_speed 0 then pointing_angle rb
  else clip_angle (pointing_angle rb + PI).

(** [v] is an integer nearest to [x], and the even one when two integers
    are equally near. *)
Definition nearest_integer_ties_even (x v : R) : Prop :=
  (exists z : Z, v = IZR z /\ (Rabs (v - x) = 1 / 2 -> Z.even z = true))
  /\ (forall z : Z, Rabs (v - x) <= Rabs (IZR z - x)).

(** The spec's "rounds toward the field edge": the field is centred on
    the origin, so the snapped coordinate is at least as far from it as
    the coordinate was. *)
Definition rounds_toward_edge (prior snapped : R) : Prop :=
  Rabs prior <= Rabs snapped.

End RobotNotions.

(** * Frame reasoning for methods *)

Section Frame.
Context {St X : Type} (f : St -> X).

Lemma preserves_ret {A} (a : A) : preserves f (ret a).
Proof. intros s. reflexivity. Qed.

Lemma preserves_raise {A} (e : exn) : preserves f (@raise St A e).
Proof. intros s. reflexivity. Qed.

Lemma preserves_get : preserves f get.
Proof. intros s. reflexivity. Qed.

Lemma preserves_lift {A} (o : outcome A) : preserves f (lift o).
Proof. intros s. reflexivity. Qed.

Lemma preserves_div (x y : R) : preserves f (x // y).
Proof. intros s. unfold div. destruct (Req_dec_T y 0); reflexivity. Qed.

Lemma preserves_modify (g : St -> St) :
  (forall s, f (g s) = f s) -> preserves f (modify g).
Proof. intros Hg s. apply Hg. Qed.

Lemma preserves_bind {A B} (c : M St A) (k : A -> M St B) :
  preserves f c -> (forall a, preserves f (k a)) -> preserves f (bind c k).
Proof.
  intros Hc Hk s. unfold state_after, bind.
  specialize (Hc s). unfold state_after in Hc.
  destruct (c s) as [s' [a|e]]; cbn in *.
  - rewrite <- Hc. apply Hk.
  - exact Hc.
Qed.
End Frame.

Create HintDb frame discriminated.
#[export] Hint Resolve preserves_ret preserves_raise preserves_get
  preserves_lift preserves_div : frame.

(** Walks through the body of a method, one statement at a time. *)
Ltac frame_walk :=
  repeat first
    [ progress cbv beta zeta
    | apply preserves_bind; [| intros ?]
    | progress auto with frame
    | match goal with
      | |- preserves _ (match ?o with _ => _ end) => destruct o
      end ].

(** * Properties of the ball model *)

(** Unfolds the plumbing of a method and leaves its arithmetic. *)
Ltac run_method :=
  cbv [state_after ending bind ret get modify raise lift div].

Section BallFacts.
Import ball_model.

Lemma wall_collision_run (T : Type) (o : T) (s : string) (b : BallBasicModel) :
  _wall_collision o s b =
  (let b1 := if ((s =? "vertical") || (s =? "corner"))%string
             then set_x_vel (_x_vel b * (-1 * _vel_bounce_coefficient b)) b
             else b in
   if ((s =? "horizontal") || (s =? "corner"))%string
   then set_y_vel (_y_vel b1 * (-1 * _vel_bounce_coefficient b1)) b1
   else b1,
   Returned tt).
Proof.
  unfold _wall_collision. run_method.
  destruct ((s =? "vertical") || (s =? "corner"))%string;
    destruct ((s =? "horizontal") || (s =? "corner"))%string; reflexivity.
Qed.

Lemma orientation_test (s a b : string) :
  ((s =? a) || (s =? b))%string = true <-> s = a \/ s = b.
Proof.
  rewrite orb_true_iff, !String.eqb_eq. tauto.
Qed.

(** C5: [_wall_collision] returns normally; it multiplies [_x_vel] by
    minus the bounce coefficient exactly when the orientation is
    "vertical" or "corner", multiplies [_y_vel] by it exactly when the
    orientation is "horizontal" or "corner", and leaves a component
    unchanged otherwise.  With velocity (1, 2) and coefficient 0.8 the
    results are (-0.8, 2), (1, -1.6) and (-0.8, -1.6). *)
Theorem wall_collision_velocity :
  (forall (T : Type) (o : T) (s : string) (b : BallBasicModel),
      let b' := state_after (_wall_collision o s) b in
      let k := - _vel_bounce_coefficient b in
      ending (_wall_collision o s) b = Returned tt
      /\ (s = "vertical"%string \/ s = "corner"%string ->
          _x_vel b' = _x_vel b * k)
      /\ (~ (s = "vertical"%string \/ s = "corner"%string) ->
          _x_vel b' = _x_vel b)
      /\ (s = "horizontal"%string \/ s = "corner"%string ->
          _y_vel b' = _y_vel b * k)
      /\ (~ (s = "horizontal"%string \/ s = "corner"%string) ->
          _y_vel b' = _y_vel b))
  /\ (forall (x0 y0 : R),
         let b := ball_with_velocity (init_default x0 y0) 1 2 in
         let vel_after s :=
           let b' := state_after (_wall_collision tt s) b in
           (_x_vel b', _y_vel b') in
         vel_after "vertical"%string = (-0.8, 2)
         /\ vel_after "horizontal"%string = (1, -1.6)
         /\ vel_after "corner"%string = (-0.8, -1.6)).
Proof.
  split.
  - intros T o s b b' k. subst b' k.
    unfold state_after, ending. rewrite wall_collision_run. cbn zeta.
    pose proof (orientation_test s "vertical" "corner") as Hv.
    pose proof (orientation_test s "horizontal" "corner") as Hh.
    destruct ((s =? "vertical") || (s =? "corner"))%string;
      destruct ((s =? "horizontal") || (s =? "corner"))%string;
      cbn; (split; [reflexivity|]); repeat split; intros Hs;
      try (exfalso; tauto);
      try (apply Hv in Hs; discriminate);
      try (apply Hh in Hs; discriminate);
      try lra; try reflexivity.
  - intros x0 y0 b vel_after. subst vel_after b.
    unfold state_after. rewrite !wall_collision_run. cbn.
    repeat split; f_equal; lra.
Qed.

(** *** Kick *)

Lemma py_min_Rmin (a b : R) : py_min a b = Rmin a b.
Proof.
  unfold py_min, Rmin.
  destruct (Rlt_dec b a), (Rle_dec a b); lra.
Qed.

Lemma distance_zero (dx dy : R) : sqrt (dx ^ 2 + dy ^ 2) = 0 -> dx = 0 /\ dy = 0.
Proof.
  intros E. apply sqrt_eq_0 in E; nra.
Qed.

Lemma distance_pos (dx dy : R) :
  ~ (dx = 0 /\ dy = 0) -> 0 < sqrt (dx ^ 2 + dy ^ 2).
Proof.
  intros N. apply sqrt_lt_R0.
  destruct (Req_dec dx 0) as [Ex|Nx].
  - destruct (Req_dec dy 0) as [Ey|Ny]; [tauto|]. nra.
  - nra.
Qed.

(** C6: when the other body is not at the ball's position, the kick
    returns normally and replaces the ball's velocity by the unit vector
    from the body to the ball times [min(kick_vel, _max_vel)]; nothing
    else of the ball changes and the old velocity plays no part. *)
Theorem kick_sets_velocity
        (T : Type) (C : Collidable T) (player : T) (b : BallBasicModel)
        (kick_vel px py : R)
        (Hpos : collision_object.get_position_components_wcs player
                = Returned (px, py))
        (Hdistinct : (px, py) <> (_x_pos b, _y_pos b)) :
  let dx := _x_pos b - px in
  let dy := _y_pos b - py in
  let d := sqrt (dx ^ 2 + dy ^ 2) in
  let speed := Rmin kick_vel (_max_vel b) in
  (dx / d) ^ 2 + (dy / d) ^ 2 = 1
  /\ _kick_collision player (Some kick_vel) b
     = (ball_with_velocity b (dx / d * speed) (dy / d * speed), Returned tt).
Proof.
  intros dx dy d speed.
  assert (Hd : 0 < d).
  { apply distance_pos. intros [Ex Ey]. apply Hdistinct.
    subst dx dy. f_equal; lra. }
  split.
  - assert (Hsq : d * d = dx ^ 2 + dy ^ 2).
    { apply sqrt_sqrt. nra. }
    transitivity ((dx ^ 2 + dy ^ 2) / (d * d)); [field; lra|].
    rewrite <- Hsq. field. lra.
  - unfold _kick_collision. run_method. rewrite Hpos.
    fold dx dy d. rewrite py_min_Rmin. fold speed.
    destruct (Req_dec_T d 0) as [E|_]; [lra|].
    unfold ball_with_velocity, set_y_vel, set_x_vel. cbn.
    do 2 f_equal; field; lra.
Qed.

(** The kick of the spec's example: player at (-1, 0), ball at (0, 0),
    [_max_vel] 3, requested speed 5; the ball leaves with velocity
    (3, 0). *)
Lemma kick_sets_velocity_witness :
  let player := mkDummpPlayer (-1) 0 0 0 0.1 in
  let b := init_default 0 0 in
  _kick_collision player (Some 5) b = (ball_with_velocity b 3 0, Returned tt).
Proof.
  intros player b.
  assert (Hd : (-1, 0) <> (_x_pos b, _y_pos b)).
  { cbn. intros E. injection E as E. lra. }
  destruct (kick_sets_velocity DummpPlayer DummpPlayer_Collidable player b
                               5 (-1) 0 eq_refl Hd) as [_ ->].
  cbn.
  replace ((0 - -1) * ((0 - -1) * 1) + (0 - 0) * ((0 - 0) * 1)) with 1 by lra.
  rewrite sqrt_1. unfold Rmin. destruct (Rle_dec 5 3); [lra|].
  unfold ball_with_velocity, set_y_vel, set_x_vel. cbn.
  do 2 f_equal; lra.
Defined.

(** *** Free motion under friction *)

Lemma Rabs_zero_not_above (t : R) : 0 <= t -> ~ Rabs 0 > t.
Proof. rewrite Rabs_R0. lra. Qed.

(** With a non-zero mass [step] never raises: the division by the speed
    is only reached when the acceleration is above the threshold, and
    then the speed is not zero. *)
Lemma ball_step_run (b : BallBasicModel) :
  _mass b <> 0 ->
  let acc := - speed b * _friction b / _mass b in
  step b =
  (if Rgt_dec (Rabs acc) 0.01
   then advance (acc * _x_vel b / speed b) (acc * _y_vel b / speed b) b
   else advance 0 0 b,
   Returned tt).
Proof.
  intros Hm acc. unfold step. run_method. fold (speed b).
  destruct (Req_dec_T (_mass b) 0) as [E|_]; [contradiction|].
  fold acc.
  destruct (Rgt_dec (Rabs acc) 0.01) as [Hacc|Hacc].
  - destruct (Req_dec_T (speed b) 0) as [E|_].
    + exfalso. subst acc. rewrite E in Hacc.
      replace (- 0 * _friction b / _mass b) with 0 in Hacc by (field; exact Hm).
      revert Hacc. apply Rabs_zero_not_above. lra.
    + reflexivity.
  - reflexivity.
Qed.

Lemma step_default_friction (b : BallBasicModel) :
  _dt b = 0.1 -> _friction b = 0.01 -> _mass b = 0.1 ->
  let k := default_damping b in
  ending step b = Returned tt
  /\ state_after step b =
     (if Rgt_dec (speed b) 0.1
      then advance (-0.1 * _x_vel b) (-0.1 * _y_vel b) b
      else advance 0 0 b)
  /\ _x_vel (state_after step b) = k * _x_vel b
  /\ _y_vel (state_after step b) = k * _y_vel b
  /\ (Rabs (- speed b * _friction b / _mass b) > 0.01 <-> speed b > 0.1).
Proof.
  intros Hdt Hf Hm k.
  assert (Hm0 : _mass b <> 0) by lra.
  pose proof (ball_step_run b Hm0) as Hrun. cbv zeta in Hrun.
  assert (Hsp : 0 <= speed b) by apply sqrt_pos.
  assert (Hacc : - speed b * _friction b / _mass b = -0.1 * speed b).
  { rewrite Hf, Hm. lra. }
  assert (Habs : Rabs (- speed b * _friction b / _mass b) = 0.1 * speed b).
  { rewrite Hacc. rewrite Rabs_left1 by lra. lra. }
  assert (Hiff : Rabs (- speed b * _friction b / _mass b) > 0.01
                 <-> speed b > 0.1).
  { rewrite Habs. lra. }
  unfold ending, state_after. rewrite Hrun. cbn [fst snd].
  subst k. unfold default_damping.
  split; [reflexivity|].
  assert (Hadv : (if Rgt_dec (Rabs (- speed b * _friction b / _mass b)) 0.01
                  then advance
                         (- speed b * _friction b / _mass b * _x_vel b / speed b)
                         (- speed b * _friction b / _mass b * _y_vel b / speed b) b
                  else advance 0 0 b)
                 = (if Rgt_dec (speed b) 0.1
                    then advance (-0.1 * _x_vel b) (-0.1 * _y_vel b) b
                    else advance 0 0 b)).
  { destruct (Rgt_dec (Rabs (- speed b * _friction b / _mass b)) 0.01) as [H1|H1];
      destruct (Rgt_dec (speed b) 0.1) as [H2|H2];
      try (exfalso; tauto); [| reflexivity].
    rewrite Hacc. f_equal; field; lra. }
  rewrite Hadv.
  split; [reflexivity|].
  split; [| split; [| exact Hiff]];
    destruct (Rgt_dec (speed b) 0.1); cbn; rewrite ?Hdt; lra.
Qed.

Lemma speed_scaled (b b' : BallBasicModel) (k : R) :
  0 <= k -> _x_vel b' = k * _x_vel b -> _y_vel b' = k * _y_vel b ->
  speed b' = k * speed b.
Proof.
  intros Hk Hx Hy. unfold speed. rewrite Hx, Hy.
  replace ((k * _x_vel b) ^ 2 + (k * _y_vel b) ^ 2)
    with (k ^ 2 * (_x_vel b ^ 2 + _y_vel b ^ 2)) by ring.
  rewrite sqrt_mult; [| nra | nra].
  rewrite sqrt_pow2 by exact Hk. reflexivity.
Qed.

Lemma default_damping_range (b : BallBasicModel) :
  0 < default_damping b <= 1.
Proof.
  unfold default_damping. destruct (Rgt_dec (speed b) 0.1); lra.
Qed.

(** C7: for a ball built with the default [dt], [friction] and [mass]
    and moving, one [step] returns normally, does not increase the speed
    and keeps the direction of the velocity: both components are
    multiplied by the same factor, 0.99 when the acceleration is above
    the 0.01 cutoff and 1 (velocity unchanged) otherwise.  The ball after
    the step still has the default parameters and still moves, so the
    same holds for every later step. *)
Theorem friction_monotone (b : BallBasicModel)
        (Hdt : _dt b = 0.1) (Hf : _friction b = 0.01) (Hm : _mass b = 0.1)
        (Hv : (_x_vel b, _y_vel b) <> (0, 0)) :
  let b' := state_after step b in
  let acc := - speed b * _friction b / _mass b in
  ending step b = Returned tt
  /\ speed b' <= speed b
  /\ (exists k : R, 0 < k <= 1
                   /\ _x_vel b' = k * _x_vel b /\ _y_vel b' = k * _y_vel b)
  /\ (Rabs acc > 0.01 ->
      _x_vel b' = 0.99 * _x_vel b /\ _y_vel b' = 0.99 * _y_vel b)
  /\ (~ Rabs acc > 0.01 ->
      _x_vel b' = _x_vel b /\ _y_vel b' = _y_vel b)
  /\ (_dt b' = 0.1 /\ _friction b' = 0.01 /\ _mass b' = 0.1
      /\ (_x_vel b', _y_vel b') <> (0, 0)).
Proof.
  intros b' acc.
  destruct (step_default_friction b Hdt Hf Hm) as (Hend & Hst & Hx & Hy & Hiff).
  fold b' in Hst, Hx, Hy. fold acc in Hiff.
  pose proof (default_damping_range b) as Hk.
  assert (Hsp : 0 <= speed b) by apply sqrt_pos.
  split; [exact Hend|].
  split.
  { rewrite (speed_scaled b b' (default_damping b)); [nra | lra | exact Hx | exact Hy]. }
  split.
  { exists (default_damping b). tauto. }
  split.
  { intros Ha. apply Hiff in Ha. rewrite Hx, Hy. unfold default_damping.
    destruct (Rgt_dec (speed b) 0.1); [split; reflexivity | contradiction]. }
  split.
  { intros Ha. rewrite Hx, Hy. unfold default_damping.
    destruct (Rgt_dec (speed b) 0.1); [tauto | lra]. }
  rewrite Hst.
  repeat split;
    try (destruct (Rgt_dec (speed b) 0.1); cbn; assumption).
  rewrite <- Hst, Hx, Hy. intros E. injection E as Ex Ey. apply Hv.
  f_equal; nra.
Qed.

(** The ball of [test_ball_moving_with_initial_speed]: default
    construction at the origin, velocity (1, -2). *)
Lemma friction_monotone_witness :
  let b := ball_with_velocity (init_default 0 0) 1 (-2) in
  ending step b = Returned tt
  /\ speed (state_after step b) <= speed b.
Proof.
  intros b.
  assert (Hv : (_x_vel b, _y_vel b) <> (0, 0)).
  { cbn. intros E. injection E as E _. lra. }
  destruct (friction_monotone b eq_refl eq_refl eq_refl Hv) as (H1 & H2 & _).
  split; [exact H1 | exact H2].
Defined.

(** *** The line-circle intersection of the elastic rebound *)

Lemma slope_form_is_substitution (px py pr : R) (b : BallBasicModel) (x : R) :
  _x_vel b <> 0 ->
  let '(a, bq, c) := slope_form_quadratic px py pr b in
  let y := _y_pos b + _y_vel b / _x_vel b * (x - _x_pos b) in
  a * x ^ 2 + bq * x + c = (x - px) ^ 2 + (y - py) ^ 2 - pr ^ 2.
Proof.
  intros Hvx. unfold slope_form_quadratic. cbv zeta. field. exact Hvx.
Qed.

Lemma vertical_form_is_substitution (px py pr : R) (b : BallBasicModel) (y : R) :
  let '(a, bq, c) := vertical_form_quadratic px py pr b in
  a * y ^ 2 + bq * y + c = (_x_pos b - px) ^ 2 + (y - py) ^ 2 - pr ^ 2.
Proof.
  unfold vertical_form_quadratic. ring.
Qed.

(** What the code computes: never an exception, the ball untouched, and
    the slope form exactly when [vx >= 0.001] (no absolute value). *)
Lemma intersection_quadratic_run (px py pr : R) (b : BallBasicModel) :
  intersection_quadratic px py pr b =
  (b, Returned (if Rge_dec (_x_vel b) 0.001
                then slope_form_quadratic px py pr b
                else vertical_form_quadratic px py pr b)).
Proof.
  unfold intersection_quadratic. run_method.
  destruct (Rge_dec (_x_vel b) 0.001) as [Hge|Hlt].
  - destruct (Req_dec_T (_x_vel b) 0) as [E|_]; [lra|]. reflexivity.
  - reflexivity.
Qed.

(** The code and the spec agree on every velocity except [vx <= -0.001]. *)
Lemma intersection_quadratic_agrees (px py pr : R) (b : BallBasicModel) :
  _x_vel b > -0.001 ->
  ending (intersection_quadratic px py pr) b
  = Returned (spec_intersection_quadratic px py pr b).
Proof.
  intros Hvx. unfold ending. rewrite intersection_quadratic_run. cbn.
  unfold spec_intersection_quadratic.
  destruct (Rge_dec (_x_vel b) 0.001) as [H1|H1];
    destruct (Rge_dec (Rabs (_x_vel b)) 0.001) as [H2|H2];
    try reflexivity; exfalso; revert H2; unfold Rabs;
    destruct (Rcase_abs (_x_vel b)); lra.
Qed.

Lemma elastic_collision_miss_is_noop_general
        (T : Type) (C : Collidable T) (player : T) (b : BallBasicModel)
        (px py pvx pvy : R) (q : R * R * R)
        (Hpos : collision_object.get_position_components_wcs player
                = Returned (px, py))
        (Hvel : collision_object.get_velocity_components_wcs player
                = Returned (pvx, pvy))
        (Hq : ending (intersection_quadratic
                        px py (collision_object.radius player)) b
              = Returned q)
        (Hdelta : discriminant q < 0) :
  _elastic_collision_with_round_player player b = (b, Returned tt).
Proof.
  unfold ending in Hq. rewrite intersection_quadratic_run in Hq.
  cbn in Hq. injection Hq as Hq.
  unfold _elastic_collision_with_round_player.
  unfold bind at 1. unfold lift at 1. rewrite Hpos.
  unfold bind at 1. unfold get at 1.
  unfold bind at 1. unfold lift at 1. rewrite Hvel.
  unfold bind at 1. rewrite intersection_quadratic_run.
  rewrite Hq. destruct q as [[a bq] c]. unfold discriminant in Hdelta.
  destruct (Rlt_dec (bq ^ 2 - 4 * a * c) 0) as [_|N]; [reflexivity | lra].
Qed.

(** C1: the code tests [vx >= 0.001], not [|vx| >= 0.001].  A ball at
    (2, 0) flying left with velocity (-1, 0) at a player of radius 1 at
    the origin has [|vx| = 1], so the spec asks for the slope form, whose
    quadratic x^2 - 1 has the roots 1 and -1: the ball's line meets the
    circle at (1, 0).  The code takes the vertical form instead, as if
    the ball moved along x = 2, finds the discriminant -12 and returns
    without touching the ball. *)
Theorem elastic_collision_negative_vx_takes_vertical_form :
  let b := ball_with_velocity (init_default 2 0) (-1) 0 in
  let player := mkDummpPlayer 0 0 0 0 1 in
  Rabs (_x_vel b) >= 0.001
  /\ spec_intersection_quadratic 0 0 1 b = slope_form_quadratic 0 0 1 b
  /\ slope_form_quadratic 0 0 1 b = (1, 0, -1)
  /\ discriminant (slope_form_quadratic 0 0 1 b) = 4
  /\ ending (intersection_quadratic 0 0 1) b
     = Returned (vertical_form_quadratic 0 0 1 b)
  /\ vertical_form_quadratic 0 0 1 b = (1, 0, 3)
  /\ discriminant (vertical_form_quadratic 0 0 1 b) = -12
  /\ _elastic_collision_with_round_player player b = (b, Returned tt).
Proof.
  intros b player.
  assert (Habs : Rabs (_x_vel b) >= 0.001).
  { cbn. rewrite Rabs_left by lra. lra. }
  assert (Hcode : ending (intersection_quadratic 0 0 1) b
                  = Returned (vertical_form_quadratic 0 0 1 b)).
  { unfold ending. rewrite intersection_quadratic_run. cbn.
    destruct (Rge_dec (-1) 0.001); [lra | reflexivity]. }
  assert (Hvert : vertical_form_quadratic 0 0 1 b = (1, 0, 3)).
  { unfold vertical_form_quadratic. cbn. repeat f_equal; lra. }
  assert (Hslope : slope_form_quadratic 0 0 1 b = (1, 0, -1)).
  { unfold slope_form_quadratic. cbn. repeat f_equal; lra. }
  split; [exact Habs|].
  split.
  { unfold spec_intersection_quadratic.
    destruct (Rge_dec (Rabs (_x_vel b)) 0.001); [reflexivity | contradiction]. }
  split; [exact Hslope|].
  split; [rewrite Hslope; cbn; lra|].
  split; [exact Hcode|].
  split; [exact Hvert|].
  split; [rewrite Hvert; cbn; lra|].
  apply (elastic_collision_miss_is_noop_general
           DummpPlayer DummpPlayer_Collidable player b 0 0 0 0
           (vertical_form_quadratic 0 0 1 b) eq_refl eq_refl Hcode).
  rewrite Hvert. cbn. lra.
Qed.

(** *** Which divisions can fail *)

Lemma root_solves_quadratic (a bq c s x : R) :
  a <> 0 -> s * s = bq ^ 2 - 4 * a * c ->
  x = (- bq + s) / (2 * a) \/ x = (- bq - s) / (2 * a) ->
  a * x ^ 2 + bq * x + c = 0.
Proof.
  intros Ha Hs Hx.
  assert (E : a * x ^ 2 + bq * x + c = (s * s - (bq ^ 2 - 4 * a * c)) / (4 * a)).
  { destruct Hx as [-> | ->]; field; exact Ha. }
  rewrite E, Hs. field. exact Ha.
Qed.

(** Reflecting [m] in the line normal to [n] keeps its length. *)
Lemma reflection_keeps_norm (m_x m_y n_x n_y : R) :
  n_x * n_x + n_y * n_y <> 0 ->
  let sp := (m_x * n_x + m_y * n_y) / (n_x * n_x + n_y * n_y) in
  (m_x - 2 * sp * n_x) ^ 2 + (m_y - 2 * sp * n_y) ^ 2 = m_x ^ 2 + m_y ^ 2.
Proof.
  intros Hn. cbv zeta. field. exact Hn.
Qed.

Lemma reflect_at_returns (px py pvx pvy cx cy : R) (b : BallBasicModel) :
  (cx - px) * (cx - px) + (cy - py) * (cy - py) <> 0 ->
  ~ (_x_vel b = 0 /\ _y_vel b = 0) ->
  ending (reflect_at px py pvx pvy cx cy b) b = Returned tt.
Proof.
  intros Hn Hm. unfold reflect_at. run_method.
  destruct (Req_dec_T ((cx - px) * (cx - px) + (cy - py) * (cy - py)) 0)
    as [E|_]; [contradiction|].
  rewrite (reflection_keeps_norm (_x_vel b) (_y_vel b) (cx - px) (cy - py) Hn).
  pose proof (distance_pos (_x_vel b) (_y_vel b) Hm) as Hpos.
  destruct (Req_dec_T (sqrt (_x_vel b ^ 2 + _y_vel b ^ 2)) 0) as [E|_]; [lra|].
  reflexivity.
Qed.

Lemma elastic_collision_returns
      (T : Type) (C : Collidable T) (player : T) (b : BallBasicModel)
      (px py pvx pvy : R) :
  collision_object.get_position_components_wcs player = Returned (px, py) ->
  collision_object.get_velocity_components_wcs player = Returned (pvx, pvy) ->
  collision_object.radius player <> 0 ->
  ~ (_x_vel b = 0 /\ _y_vel b = 0) ->
  ending (_elastic_collision_with_round_player player) b = Returned tt.
Proof.
  intros Hpos Hvel Hr Hm.
  unfold _elastic_collision_with_round_player, ending.
  unfold bind at 1. unfold lift at 1. rewrite Hpos.
  unfold bind at 1. unfold get at 1.
  unfold bind at 1. unfold lift at 1. rewrite Hvel.
  unfold bind at 1. rewrite intersection_quadratic_run.
  set (pr := collision_object.radius player) in *.
  destruct (Rge_dec (_x_vel b) 0.001) as [Hge|Hlt].
  - assert (Hvx : _x_vel b <> 0) by lra.
    pose proof (fun x => slope_form_is_substitution px py pr b x Hvx) as Hsub.
    unfold slope_form_quadratic in *. cbv beta iota zeta in Hsub.
    set (k := _y_vel b / _x_vel b) in *.
    set (a := 1 + k ^ 2) in *.
    set (bq := -2 * (px + (k * _x_pos b - _y_pos b + py) * k)) in *.
    set (c := px ^ 2 + (k * _x_pos b - _y_pos b + py) ^ 2 - pr ^ 2) in *.
    assert (Ha : 0 < a) by (subst a; nra).
    clearbody a bq c.
    set (delta := bq ^ 2 - 4 * a * c).
    destruct (Rlt_dec delta 0) as [|Hdelta]; [reflexivity|].
    apply Rnot_lt_le in Hdelta.
    pose proof (sqrt_sqrt delta Hdelta) as Hs.
    set (s := sqrt delta) in *. clearbody s. subst delta.
    run_method.
    destruct (Req_dec_T (2 * a) 0) as [E|_]; [lra|].
    destruct (Req_dec_T (_x_vel b) 0) as [E|_]; [contradiction|].
    assert (Hcircle : forall x : R,
               x = (- bq + s) / (2 * a) \/ x = (- bq - s) / (2 * a) ->
               (x - px) * (x - px)
               + (_y_pos b + _y_vel b * (x - _x_pos b) / _x_vel b - py)
                 * (_y_pos b + _y_vel b * (x - _x_pos b) / _x_vel b - py)
               <> 0).
    { intros x Hx.
      pose proof (root_solves_quadratic a bq c s x (Rgt_not_eq _ _ Ha) Hs Hx)
        as Hroot.
      rewrite Hsub in Hroot.
      replace (_y_vel b * (x - _x_pos b) / _x_vel b)
        with (k * (x - _x_pos b)) by (subst k; field; exact Hvx).
      nra. }
    match goal with
    | |- context [if ?t then _ else _] => destruct t
    end;
    match goal with
    | |- context [Req_dec_T ((?cx - px) * (?cx - px) + (?cy - py) * (?cy - py)) 0] =>
        change (ending (reflect_at px py pvx pvy cx cy b) b = Returned tt);
        apply reflect_at_returns; [apply Hcircle; tauto | exact Hm]
    end.
  - pose proof (vertical_form_is_substitution px py pr b) as Hsub.
    unfold vertical_form_quadratic in *. cbv beta iota zeta in Hsub.
    set (bq := -2 * py) in *.
    set (c := py ^ 2 + (_x_pos b - px) ^ 2 - pr ^ 2) in *.
    clearbody bq c.
    set (delta := bq ^ 2 - 4 * 1 * c).
    destruct (Rlt_dec delta 0) as [|Hdelta]; [reflexivity|].
    apply Rnot_lt_le in Hdelta.
    pose proof (sqrt_sqrt delta Hdelta) as Hs.
    set (s := sqrt delta) in *. clearbody s. subst delta.
    run_method.
    destruct (Req_dec_T (2 * 1) 0) as [E|_]; [lra|].
    assert (Hcircle : forall y : R,
               y = (- bq + s) / (2 * 1) \/ y = (- bq - s) / (2 * 1) ->
               (_x_pos b - px) * (_x_pos b - px) + (y - py) * (y - py) <> 0).
    { intros y Hy.
      pose proof (root_solves_quadratic 1 bq c s y R1_neq_R0 Hs Hy) as Hroot.
      rewrite Hsub in Hroot. nra. }
    match goal with
    | |- context [if ?t then _ else _] => destruct t
    end;
    match goal with
    | |- context [Req_dec_T ((?cx - px) * (?cx - px) + (?cy - py) * (?cy - py)) 0] =>
        change (ending (reflect_at px py pvx pvy cx cy b) b = Returned tt);
        apply reflect_at_returns; [apply Hcircle; tauto | exact Hm]
    end.
Qed.

Lemma reflect_at_raises_at_rest (px py pvx pvy cx cy : R) (b : BallBasicModel) :
  (cx - px) * (cx - px) + (cy - py) * (cy - py) <> 0 ->
  _x_vel b = 0 -> _y_vel b = 0 ->
  ending (reflect_at px py pvx pvy cx cy b) b = Raised ZeroDivisionError.
Proof.
  intros Hn Hx Hy. unfold reflect_at. run_method.
  destruct (Req_dec_T ((cx - px) * (cx - px) + (cy - py) * (cy - py)) 0)
    as [E|_]; [contradiction|].
  rewrite (reflection_keeps_norm (_x_vel b) (_y_vel b) (cx - px) (cy - py) Hn).
  rewrite Hx, Hy. replace (0 ^ 2 + 0 ^ 2) with 0 by ring. rewrite sqrt_0.
  destruct (Req_dec_T 0 0) as [_|N]; [reflexivity | contradiction].
Qed.

(** A ball at rest whose vertical line meets the body's circle: the
    reflected vector is the zero vector and the rebound divides by its
    length. *)
Lemma elastic_collision_at_rest_raises
      (T : Type) (C : Collidable T) (player : T) (b : BallBasicModel)
      (px py pvx pvy : R) :
  collision_object.get_position_components_wcs player = Returned (px, py) ->
  collision_object.get_velocity_components_wcs player = Returned (pvx, pvy) ->
  collision_object.radius player <> 0 ->
  _x_vel b = 0 -> _y_vel b = 0 ->
  0 <= discriminant
         (vertical_form_quadratic px py (collision_object.radius player) b) ->
  ending (_elastic_collision_with_round_player player) b
  = Raised ZeroDivisionError.
Proof.
  intros Hpos Hvel Hr Hx Hy Hd.
  unfold _elastic_collision_with_round_player, ending.
  unfold bind at 1. unfold lift at 1. rewrite Hpos.
  unfold bind at 1. unfold get at 1.
  unfold bind at 1. unfold lift at 1. rewrite Hvel.
  unfold bind at 1. rewrite intersection_quadratic_run.
  set (pr := collision_object.radius player) in *.
  destruct (Rge_dec (_x_vel b) 0.001) as [Hge|Hlt]; [lra|].
  pose proof (vertical_form_is_substitution px py pr b) as Hsub.
  unfold vertical_form_quadratic, discriminant in *.
  cbv beta iota zeta in Hsub.
  set (bq := -2 * py) in *.
  set (c := py ^ 2 + (_x_pos b - px) ^ 2 - pr ^ 2) in *.
  clearbody bq c.
  set (delta := bq ^ 2 - 4 * 1 * c) in *.
  destruct (Rlt_dec delta 0) as [Hneg|_]; [lra|].
  pose proof (sqrt_sqrt delta Hd) as Hs.
  set (s := sqrt delta) in *. clearbody s. subst delta.
  run_method.
  destruct (Req_dec_T (2 * 1) 0) as [E|_]; [lra|].
  assert (Hcircle : forall y : R,
             y = (- bq + s) / (2 * 1) \/ y = (- bq - s) / (2 * 1) ->
             (_x_pos b - px) * (_x_pos b - px) + (y - py) * (y - py) <> 0).
  { intros y Hy'.
    pose proof (root_solves_quadratic 1 bq c s y R1_neq_R0 Hs Hy') as Hroot.
    rewrite Hsub in Hroot. nra. }
  match goal with
  | |- context [if ?t then _ else _] => destruct t
  end;
  match goal with
  | |- context [Req_dec_T ((?cx - px) * (?cx - px) + (?cy - py) * (?cy - py)) 0] =>
      change (ending (reflect_at px py pvx pvy cx cy b) b
              = Raised ZeroDivisionError);
      apply reflect_at_raises_at_rest;
      [apply Hcircle; tauto | exact Hx | exact Hy]
  end.
Qed.

Lemma kick_collision_ending
      (T : Type) (C : Collidable T) (player : T) (b : BallBasicModel)
      (kick_vel px py : R) :
  collision_object.get_position_components_wcs player = Returned (px, py) ->
  ending (_kick_collision player (Some kick_vel)) b
  = if Req_dec_T (sqrt ((_x_pos b - px) ^ 2 + (_y_pos b - py) ^ 2)) 0
    then Raised ZeroDivisionError else Returned tt.
Proof.
  intros Hpos. unfold _kick_collision. run_method. rewrite Hpos.
  destruct (Req_dec_T (sqrt ((_x_pos b - px) ^ 2 + (_y_pos b - py) ^ 2)) 0);
    reflexivity.
Qed.

(** C2, as the code has it.  The two thresholds do guard the divisions
    they stand before: [step] never raises when the mass is not zero (its
    division by the speed is reached only above the 0.01 cutoff, where
    the speed is positive), and the slope [vy / vx] of the elastic
    rebound is only computed when [vx >= 0.001].  The other divisions
    have no guard.  The kick raises [ZeroDivisionError] exactly when the
    other body is at the ball's position.  The elastic rebound returns
    normally whenever the body's radius is not zero and the ball moves;
    its divisions by n.n and by the length of the reflected vector are
    then defined. *)
Theorem division_guards :
  (forall b : BallBasicModel,
      _mass b <> 0 -> ending step b = Returned tt)
  /\ (forall (px py pr : R) (b : BallBasicModel),
         exists q, intersection_quadratic px py pr b = (b, Returned q))
  /\ (forall (T : Type) (C : Collidable T) (player : T) (b : BallBasicModel)
             (kick_vel px py : R),
         collision_object.get_position_components_wcs player
         = Returned (px, py) ->
         (ending (_kick_collision player (Some kick_vel)) b
          = Raised ZeroDivisionError
          <-> px = _x_pos b /\ py = _y_pos b)
         /\ (~ (px = _x_pos b /\ py = _y_pos b) ->
             ending (_kick_collision player (Some kick_vel)) b = Returned tt))
  /\ (forall (T : Type) (C : Collidable T) (player : T) (b : BallBasicModel)
             (px py pvx pvy : R),
         collision_object.get_position_components_wcs player
         = Returned (px, py) ->
         collision_object.get_velocity_components_wcs player
         = Returned (pvx, pvy) ->
         collision_object.radius player <> 0 ->
         ~ (_x_vel b = 0 /\ _y_vel b = 0) ->
         ending (_elastic_collision_with_round_player player) b = Returned tt).
Proof.
  split; [| split; [| split]].
  - intros b Hm. unfold ending. rewrite (ball_step_run b Hm).
    destruct (Rgt_dec _ _); reflexivity.
  - intros px py pr b. rewrite intersection_quadratic_run. eexists. reflexivity.
  - intros T C player b kick_vel px py Hpos.
    rewrite (kick_collision_ending T C player b kick_vel px py Hpos).
    destruct (Req_dec_T (sqrt ((_x_pos b - px) ^ 2 + (_y_pos b - py) ^ 2)) 0)
      as [E|N].
    + apply distance_zero in E. split; [split; intros; [lra | reflexivity]|].
      intros Hn. exfalso. apply Hn. lra.
    + split; [split; [discriminate|] | reflexivity].
      intros [Ex Ey]. exfalso. apply N.
      rewrite Ex, Ey.
      replace ((_x_pos b - _x_pos b) ^ 2 + (_y_pos b - _y_pos b) ^ 2)
        with 0 by ring.
      apply sqrt_0.
  - intros T C player b px py pvx pvy Hpos Hvel Hr Hm.
    exact (elastic_collision_returns T C player b px py pvx pvy Hpos Hvel Hr Hm).
Qed.

(** C2 as stated fails.  A kick by a player standing on the ball divides
    by the zero distance; and a ball at rest at (1, 0) that is touched by
    a player of radius 1 at the origin (moving at (1, 0)) makes the
    elastic rebound divide by the zero length of the reflected vector. *)
Lemma unguarded_divisions_raise :
  ending (_kick_collision (mkDummpPlayer 0 0 0 0 0.1) (Some 5))
         (init_default 0 0)
  = Raised ZeroDivisionError
  /\ ending (_elastic_collision_with_round_player (mkDummpPlayer 0 0 1 0 1))
            (init_default 1 0)
     = Raised ZeroDivisionError.
Proof.
  split.
  - rewrite (kick_collision_ending DummpPlayer DummpPlayer_Collidable
               (mkDummpPlayer 0 0 0 0 0.1) (init_default 0 0) 5 0 0 eq_refl).
    cbn [init_default init _x_pos _y_pos].
    replace ((0 - 0) ^ 2 + (0 - 0) ^ 2) with 0 by ring.
    rewrite sqrt_0.
    destruct (Req_dec_T 0 0) as [_|N]; [reflexivity | contradiction].
  - apply (elastic_collision_at_rest_raises
             DummpPlayer DummpPlayer_Collidable (mkDummpPlayer 0 0 1 0 1)
             (init_default 1 0) 0 0 1 0 eq_refl eq_refl).
    + cbn. lra.
    + reflexivity.
    + reflexivity.
    + cbn. lra.
Qed.

(** *** The resolvers do not move the ball *)

Lemma set_x_vel_position (v : R) (b : BallBasicModel) :
  get_position (set_x_vel v b) = get_position b.
Proof. reflexivity. Qed.

Lemma set_y_vel_position (v : R) (b : BallBasicModel) :
  get_position (set_y_vel v b) = get_position b.
Proof. reflexivity. Qed.

Lemma wall_collision_keeps_position (T : Type) (o : T) (s : string) :
  preserves get_position (_wall_collision o s).
Proof.
  unfold _wall_collision. frame_walk;
    apply preserves_modify; intros; reflexivity.
Qed.

Lemma intersection_quadratic_keeps_position (px py pr : R) :
  preserves get_position (intersection_quadratic px py pr).
Proof.
  unfold intersection_quadratic. frame_walk.
Qed.

Lemma elastic_collision_keeps_position (T : Type) (C : Collidable T) (o : T) :
  preserves get_position (_elastic_collision_with_round_player o).
Proof.
  unfold _elastic_collision_with_round_player.
  pose proof intersection_quadratic_keeps_position.
  frame_walk; apply preserves_modify; intros; reflexivity.
Qed.

Lemma kick_collision_keeps_position
      (T : Type) (C : Collidable T) (o : T) (kick_vel : option R) :
  preserves get_position (_kick_collision o kick_vel).
Proof.
  unfold _kick_collision.
  frame_walk; apply preserves_modify; intros; reflexivity.
Qed.

Lemma receive_collision_keeps_position (T : Type) (C : Collidable T) (o : T) :
  preserves get_position (_receive_collision o).
Proof.
  unfold _receive_collision.
  frame_walk; apply preserves_modify; intros; reflexivity.
Qed.

(** C10: each of the four collision resolvers leaves the ball where it
    is, however it ends (normal return or exception), while [step] does
    move a ball that has a velocity. *)
Theorem resolvers_keep_position :
  (forall (T : Type) (C : Collidable T) (o : T) (b : BallBasicModel)
          (wall_orientation : string) (kick_vel : option R),
      get_position (state_after (_wall_collision o wall_orientation) b)
      = get_position b
      /\ get_position (state_after (_elastic_collision_with_round_player o) b)
         = get_position b
      /\ get_position (state_after (_kick_collision o kick_vel) b)
         = get_position b
      /\ get_position (state_after (_receive_collision o) b)
         = get_position b)
  /\ get_position (state_after step (ball_with_velocity (init_default 0 0) 1 0))
     <> get_position (ball_with_velocity (init_default 0 0) 1 0).
Proof.
  split.
  - intros T C o b w k. repeat split.
    + apply wall_collision_keeps_position.
    + apply elastic_collision_keeps_position.
    + apply kick_collision_keeps_position.
    + apply receive_collision_keeps_position.
  - pose proof (step_default_friction
                  (ball_with_velocity (init_default 0 0) 1 0)
                  eq_refl eq_refl eq_refl) as [_ [Hs _]].
    assert (Hsp : speed (ball_with_velocity (init_default 0 0) 1 0) = 1).
    { unfold speed. cbn. replace (1 * (1 * 1) + 0 * (0 * 1)) with 1 by lra.
      apply sqrt_1. }
    rewrite Hs, Hsp.
    destruct (Rgt_dec 1 0.1); [| lra].
    cbn. intros E. injection E as E _. lra.
Qed.

End BallFacts.

(** * Properties of the robot model *)

Section RobotFacts.
Import robot_model.

Lemma robot_step_run (l r : R) (a : ball_model.BallActions) (rb : RobotModel) :
  step l r a rb =
  let rb1 := set_vel (_wheel_radius rb / 2 * (l + r)) rb in
  if Req_dec_T (_axis_len rb) 0 then (rb1, Raised ZeroDivisionError)
  else
    (set_pointing_angle
       (clip_angle (pointing_angle rb + heading_change rb l r))
       (set_y_pos_EFCS
          (_y_pos_EFCS rb + _wheel_radius rb * _dt rb / 2 * (l + r)
                            * sin (pointing_angle rb))
          (set_x_pos_EFCS
             (_x_pos_EFCS rb + _wheel_radius rb * _dt rb / 2 * (l + r)
                               * cos (pointing_angle rb))
             rb1)),
     Returned a).
Proof.
  unfold step, heading_change. run_method. cbv zeta.
  destruct (Req_dec_T (_axis_len rb) 0); reflexivity.
Qed.

Lemma np_sign_pos (a : R) : 0 < a -> np_sign a = 1.
Proof.
  intros H. unfold np_sign.
  destruct (Rlt_dec a 0); [lra|]. destruct (Rlt_dec 0 a); [reflexivity | lra].
Qed.

Lemma np_sign_neg (a : R) : a < 0 -> np_sign a = -1.
Proof.
  intros H. unfold np_sign. destruct (Rlt_dec a 0); [reflexivity | lra].
Qed.

Lemma Rabs_le_bounds (a b : R) : Rabs a <= b -> - b <= a <= b.
Proof.
  unfold Rabs. destruct (Rcase_abs a); lra.
Qed.

(** One wrap brings the heading back when the turn is at most a full
    revolution. *)
Lemma clip_angle_range (h d : R) :
  - PI <= h <= PI -> Rabs d <= 2 * PI -> - PI <= clip_angle (h + d) <= PI.
Proof.
  intros Hh Hd. pose proof PI_RGT_0 as Hpi.
  apply Rabs_le_bounds in Hd.
  unfold clip_angle.
  destruct (Rgt_dec (Rabs (h + d)) PI) as [Hbig|Hsmall].
  - destruct (Rle_or_lt 0 (h + d)) as [Hpos|Hneg].
    + rewrite Rabs_pos_eq in Hbig by exact Hpos.
      rewrite np_sign_pos by lra. lra.
    + rewrite Rabs_left in Hbig by exact Hneg.
      rewrite np_sign_neg by exact Hneg. lra.
  - apply Rnot_gt_le in Hsmall. apply Rabs_le_bounds in Hsmall. lra.
Qed.

Lemma step_keeps_drive (l r : R) (a : ball_model.BallActions) (rb : RobotModel) :
  let rb' := state_after (step l r a) rb in
  _wheel_radius rb' = _wheel_radius rb /\ _dt rb' = _dt rb
  /\ _axis_len rb' = _axis_len rb.
Proof.
  unfold state_after. rewrite robot_step_run. cbv zeta.
  destruct (Req_dec_T (_axis_len rb) 0); cbn; repeat split; reflexivity.
Qed.

Lemma step_heading_range (l r : R) (a : ball_model.BallActions) (rb : RobotModel) :
  - PI <= pointing_angle rb <= PI ->
  Rabs (heading_change rb l r) <= 2 * PI ->
  - PI <= pointing_angle (state_after (step l r a) rb) <= PI.
Proof.
  intros Hh Hd. unfold state_after. rewrite robot_step_run. cbv zeta.
  destruct (Req_dec_T (_axis_len rb) 0); cbn.
  - exact Hh.
  - apply clip_angle_range; assumption.
Qed.

Lemma heading_change_after_step (l r l' r' : R) (a : ball_model.BallActions)
      (rb : RobotModel) :
  heading_change (state_after (step l r a) rb) l' r' = heading_change rb l' r'.
Proof.
  destruct (step_keeps_drive l r a rb) as (H1 & H2 & H3).
  unfold heading_change. rewrite H1, H2, H3. reflexivity.
Qed.

(** C3, as the code has it: the wrap is a single subtraction of a full
    turn, so it needs the heading change of a tick to be at most a full
    turn; and it leaves a heading of exactly [-PI] alone.  From a heading
    in (-PI, PI], after every step of a sequence of wheel-speed pairs
    each of which turns the robot by at most [2 PI], the heading lies in
    the closed interval [-PI, PI]. *)
Theorem heading_stays_wrapped (rb : RobotModel) (ws : list (R * R))
        (Hinit : - PI < pointing_angle rb <= PI)
        (Hturn : Forall (fun w => Rabs (heading_change rb (fst w) (snd w))
                                  <= 2 * PI) ws) :
  Forall (fun rb' => - PI <= pointing_angle rb' <= PI) (trajectory ws rb).
Proof.
  assert (Hclosed : - PI <= pointing_angle rb <= PI) by lra.
  clear Hinit. revert rb Hclosed Hturn.
  induction ws as [| [l r] ws IH]; intros rb Hclosed Hturn; cbn.
  - constructor.
  - inversion Hturn as [| w ws' Hw Hws]; subst. cbn in Hw.
    pose proof (step_heading_range l r ball_model.NO rb Hclosed Hw) as Hnext.
    constructor; [exact Hnext|].
    apply IH; [exact Hnext|].
    eapply Forall_impl; [| exact Hws].
    intros [l' r'] H. cbn in *. rewrite heading_change_after_step. exact H.
Qed.

Lemma init_default_run (x y : R) :
  init_default x y = Returned (default_robot x y).
Proof.
  unfold init_default, init, _convert_field_CS_to_EFCS.
  destruct (Req_dec_T 0 0) as [_|N]; [reflexivity | contradiction].
Qed.

Lemma PI_bounds : 3 < PI <= 4.
Proof.
  pose proof PI2_3_2. pose proof PI_4. lra.
Qed.

Lemma default_robot_heading_change (x y l r : R) :
  heading_change (default_robot x y) l r = 0.04 * (l - r).
Proof.
  unfold heading_change. cbn. lra.
Qed.

Lemma default_robot_step_heading (x y l r : R) (a : ball_model.BallActions) :
  pointing_angle (state_after (step l r a) (default_robot x y))
  = clip_angle (0.04 * (l - r)).
Proof.
  unfold state_after. rewrite robot_step_run. cbv zeta.
  destruct (Req_dec_T (_axis_len (default_robot x y)) 0) as [E|_].
  - cbn in E. lra.
  - cbn [fst pointing_angle set_pointing_angle].
    rewrite default_robot_heading_change. f_equal. cbn. lra.
Qed.

(** The robot of the tests, driven as [test_moving_round] and
    [test_rotation] drive it. *)
Lemma heading_stays_wrapped_witness :
  Forall (fun rb' => - PI <= pointing_angle rb' <= PI)
         (trajectory [(5, 4); (5, -5)] (default_robot 0 0)).
Proof.
  pose proof PI_bounds as Hpi.
  apply heading_stays_wrapped.
  - cbn. lra.
  - apply Forall_cons; [| apply Forall_cons; [| apply Forall_nil]];
      cbn [fst snd]; rewrite default_robot_heading_change;
      apply Rabs_le; lra.
Defined.

(** C3 as stated fails twice.  Spinning the default robot with wheel
    speeds (200, -200) asks for a turn of 16 rad in one tick; one wrap
    leaves 16 - 2 PI, above PI.  And a turn of exactly -PI from heading 0
    ends on -PI, which the wrap keeps and the half-open interval
    excludes. *)
Lemma heading_leaves_half_open_interval :
  exists rb : RobotModel,
    init_default 0 0 = Returned rb
    /\ - PI < pointing_angle rb <= PI
    /\ ending (step 200 (-200) ball_model.NO) rb = Returned ball_model.NO
    /\ PI < pointing_angle (state_after (step 200 (-200) ball_model.NO) rb)
    /\ pointing_angle (state_after (step 0 (25 * PI) ball_model.NO) rb) = - PI.
Proof.
  pose proof PI_bounds as Hpi.
  exists (default_robot 0 0).
  split; [apply init_default_run|].
  split; [cbn; lra|].
  split.
  { unfold ending. rewrite robot_step_run. cbv zeta.
    destruct (Req_dec_T (_axis_len (default_robot 0 0)) 0) as [E|_];
      [cbn in E; lra | reflexivity]. }
  rewrite !default_robot_step_heading.
  split.
  - replace (0.04 * (200 - -200)) with 16 by lra.
    unfold clip_angle.
    destruct (Rgt_dec (Rabs 16) PI) as [_|N].
    + rewrite np_sign_pos by lra. lra.
    + exfalso. apply N. rewrite Rabs_pos_eq by lra. lra.
  - replace (0.04 * (0 - 25 * PI)) with (- PI) by lra.
    unfold clip_angle.
    destruct (Rgt_dec (Rabs (- PI)) PI) as [Hgt|_]; [| reflexivity].
    exfalso. rewrite Rabs_Ropp, Rabs_pos_eq in Hgt by lra. lra.
Qed.

(** *** The collision-restricted step *)

Lemma step_with_restrictions_run (blocker restricted l r : R) (rb : RobotModel) :
  let avg := (l + r) / 2 in
  step_with_restrictions blocker restricted l r rb =
  if Req_dec_T avg 0 then (step l r ball_model.NO ;; ret tt) rb
  else if Rgt_dec (get_diff_angle blocker (travel_heading rb avg)) restricted
       then (step l r ball_model.NO ;; ret tt) rb
       else (step (l - avg) (r - avg) ball_model.NO ;; ret tt) rb.
Proof.
  intros avg. unfold step_with_restrictions, travel_heading. fold avg.
  unfold bind at 1. unfold get at 1.
  destruct (Req_dec_T avg 0) as [E|N]; [reflexivity|].
  destruct (Rgt_dec avg 0) as [Hpos|Hnpos].
  - destruct (Rgt_dec _ restricted); reflexivity.
  - destruct (Rlt_dec avg 0) as [Hneg|Hnneg]; [| exfalso; lra].
    destruct (Rgt_dec _ restricted); reflexivity.
Qed.

Lemma step_then_ret_state (l r : R) (rb : RobotModel) :
  state_after (step l r ball_model.NO ;; ret tt) rb
  = state_after (step l r ball_model.NO) rb.
Proof.
  unfold state_after, bind. destruct (step l r ball_model.NO rb) as [s [a|e]];
    reflexivity.
Qed.

(** With the average speed taken off both wheels the robot turns as it
    would have and does not travel. *)
Lemma balanced_step (l r : R) (rb : RobotModel) :
  let avg := (l + r) / 2 in
  let rb' := state_after (step (l - avg) (r - avg) ball_model.NO) rb in
  _x_pos_EFCS rb' = _x_pos_EFCS rb
  /\ _y_pos_EFCS rb' = _y_pos_EFCS rb
  /\ pointing_angle rb'
     = pointing_angle (state_after (step l r ball_model.NO) rb).
Proof.
  intros avg rb'. subst rb'. unfold state_after. rewrite !robot_step_run.
  cbv zeta.
  assert (Hsum : l - avg + (r - avg) = 0) by (subst avg; lra).
  assert (Hturn : heading_change rb (l - avg) (r - avg) = heading_change rb l r).
  { unfold heading_change. f_equal. lra. }
  destruct (Req_dec_T (_axis_len rb) 0); cbn.
  - repeat split; reflexivity.
  - rewrite Hsum, Hturn. repeat split; try reflexivity; ring.
Qed.

(** C9: with a non-zero average speed and the travel heading within the
    restricted half-angle of the blocker angle, the restricted step is
    the kinematics step with the average taken off both wheel speeds; it
    leaves the position of the robot as it was and the heading where the
    unrestricted step would have left it.  With a zero average speed, or
    a travel heading outside the sector, it is the unrestricted step. *)
Theorem restricted_step_cancels_translation :
  forall (rb : RobotModel) (blocker restricted l r : R),
    let avg := (l + r) / 2 in
    let restricted_step := step_with_restrictions blocker restricted l r in
    let angle_diff := get_diff_angle blocker (travel_heading rb avg) in
    (avg <> 0 /\ angle_diff <= restricted ->
     restricted_step rb = (step (l - avg) (r - avg) ball_model.NO ;; ret tt) rb
     /\ _x_pos_EFCS (state_after restricted_step rb) = _x_pos_EFCS rb
     /\ _y_pos_EFCS (state_after restricted_step rb) = _y_pos_EFCS rb
     /\ pointing_angle (state_after restricted_step rb)
        = pointing_angle (state_after (step l r ball_model.NO) rb))
    /\ (avg = 0 \/ angle_diff > restricted ->
        restricted_step rb = (step l r ball_model.NO ;; ret tt) rb).
Proof.
  intros rb blocker restricted l r avg restricted_step angle_diff.
  pose proof (step_with_restrictions_run blocker restricted l r rb) as Hrun.
  cbv zeta in Hrun. fold avg angle_diff restricted_step in Hrun.
  split.
  - intros [Havg Hin].
    assert (Heq : restricted_step rb
                  = (step (l - avg) (r - avg) ball_model.NO ;; ret tt) rb).
    { rewrite Hrun.
      destruct (Req_dec_T avg 0); [contradiction|].
      destruct (Rgt_dec angle_diff restricted); [lra | reflexivity]. }
    split; [exact Heq|].
    unfold state_after at 1 2 3. rewrite Heq.
    fold (state_after (step (l - avg) (r - avg) ball_model.NO ;; ret tt) rb).
    rewrite step_then_ret_state.
    exact (balanced_step l r rb).
  - intros Hout. rewrite Hrun.
    destruct (Req_dec_T avg 0); [reflexivity|].
    destruct (Rgt_dec angle_diff restricted); [reflexivity|].
    exfalso. destruct Hout; [contradiction | lra].
Qed.

(** *** The rounding done by a wall collision *)

Lemma Int_part_bounds (x : R) :
  IZR (Int_part x) <= x < IZR (Int_part x) + 1.
Proof.
  destruct (base_Int_part x). lra.
Qed.

Lemma integer_below_or_above (f z : Z) :
  IZR z <= IZR f \/ IZR f + 1 <= IZR z.
Proof.
  destruct (Z_le_gt_dec z f) as [Hle|Hgt].
  - left. apply IZR_le. exact Hle.
  - right. rewrite <- (plus_IZR f 1). apply IZR_le. lia.
Qed.

Lemma np_round_nearest (x : R) : nearest_integer_ties_even x (np_round x).
Proof.
  pose proof (Int_part_bounds x) as Hf.
  unfold nearest_integer_ties_even, np_round.
  set (f := Int_part x) in *.
  assert (Hdist : forall z : Z,
             (IZR z <= IZR f -> Rabs (IZR z - x) = x - IZR z)
             /\ (IZR f + 1 <= IZR z -> Rabs (IZR z - x) = IZR z - x)).
  { intros z. split; intros Hz.
    - rewrite Rabs_left1 by lra. lra.
    - rewrite Rabs_pos_eq by lra. reflexivity. }
  assert (Hf0 : Rabs (IZR f - x) = x - IZR f).
  { apply Hdist. lra. }
  assert (Hf1 : Rabs (IZR (f + 1) - x) = IZR f + 1 - x).
  { rewrite (proj2 (Hdist (f + 1)%Z)); rewrite plus_IZR; lra. }
  destruct (Rlt_dec (x - IZR f) (1 / 2)) as [Hlow|Hnlow].
  - split.
    + exists f. split; [reflexivity|]. rewrite Hf0. lra.
    + intros z. rewrite Hf0.
      destruct (integer_below_or_above f z) as [Hz|Hz];
        [rewrite (proj1 (Hdist z) Hz) | rewrite (proj2 (Hdist z) Hz)]; lra.
  - destruct (Rlt_dec (1 / 2) (x - IZR f)) as [Hhigh|Hnhigh].
    + split.
      * exists (f + 1)%Z. split; [reflexivity|]. rewrite Hf1. lra.
      * intros z. rewrite Hf1.
        destruct (integer_below_or_above f z) as [Hz|Hz];
          [rewrite (proj1 (Hdist z) Hz) | rewrite (proj2 (Hdist z) Hz)]; lra.
    + destruct (Z.even f) eqn:Heven.
      * split.
        -- exists f. split; [reflexivity | intros _; exact Heven].
        -- intros z. rewrite Hf0.
           destruct (integer_below_or_above f z) as [Hz|Hz];
             [rewrite (proj1 (Hdist z) Hz) | rewrite (proj2 (Hdist z) Hz)]; lra.
      * split.
        -- exists (f + 1)%Z. split; [reflexivity | intros _].
           rewrite Z.even_add, Heven. reflexivity.
        -- intros z. rewrite Hf1.
           destruct (integer_below_or_above f z) as [Hz|Hz];
             [rewrite (proj1 (Hdist z) Hz) | rewrite (proj2 (Hdist z) Hz)]; lra.
Qed.

(** C4, as the code has it: [np.round] is rounding to the nearest
    integer with ties to the even one, whichever side of the coordinate
    that integer lies on.  When no player collision is reported, a wall
    collision replaces, before the motion step runs, x (vertical wall),
    y (horizontal wall) or both (corner) by the nearest integer, ties to
    even, and leaves the other coordinate and the heading alone;
    [collision_step] is then the restricted step run from that snapped
    state. *)
Theorem wall_collision_snaps_to_nearest_integer
        (T : Type) (C : Collidable T) (rb : RobotModel)
        (wall_collision players_collision : CollisionTypes)
        (collision_list : list T) (l r : R) (a : ball_model.BallActions)
        (Hplayers : players_collision <> PLAYER) :
  let restriction :=
    collision_restriction wall_collision players_collision collision_list in
  let rb' := state_after restriction rb in
  match wall_collision with
  | NO => ending restriction rb = Raised ValueError /\ rb' = rb
  | WALL_VERTICAL =>
      nearest_integer_ties_even (_x_pos_EFCS rb) (_x_pos_EFCS rb')
      /\ _y_pos_EFCS rb' = _y_pos_EFCS rb
  | WALL_HORIZONTAL =>
      _x_pos_EFCS rb' = _x_pos_EFCS rb
      /\ nearest_integer_ties_even (_y_pos_EFCS rb) (_y_pos_EFCS rb')
  | WALL_CORNER | PLAYER =>
      nearest_integer_ties_even (_x_pos_EFCS rb) (_x_pos_EFCS rb')
      /\ nearest_integer_ties_even (_y_pos_EFCS rb) (_y_pos_EFCS rb')
  end
  /\ pointing_angle rb' = pointing_angle rb
  /\ (wall_collision <> NO ->
      exists blocker_angle restricted_angle : R,
        ending restriction rb = Returned (blocker_angle, restricted_angle)
        /\ collision_step wall_collision players_collision collision_list
                          l r a rb
           = (step_with_restrictions blocker_angle restricted_angle l r ;;
              ret a) rb').
Proof.
  intros restriction rb'.
  assert (Hp : CollisionTypes_eqb players_collision PLAYER = false).
  { destruct players_collision; try reflexivity. contradiction. }
  assert (Hstep : forall angles : R * R,
             restriction rb = (rb', Returned angles) ->
             collision_step wall_collision players_collision collision_list
                            l r a rb
             = (step_with_restrictions (fst angles) (snd angles) l r ;;
                ret a) rb').
  { intros [b1 b2] Hr. unfold collision_step. unfold bind at 1.
    fold restriction. rewrite Hr. reflexivity. }
  assert (Hrun : restriction rb
                 = match wall_collision with
                   | NO => (rb, Raised ValueError)
                   | _ => (rb', Returned
                                  (match ending restriction rb with
                                   | Returned angles => angles
                                   | Raised _ => (0, 0)
                                   end))
                   end).
  { subst rb'. unfold ending, state_after. subst restriction.
    unfold collision_restriction. run_method. rewrite Hp.
    destruct wall_collision; reflexivity. }
  pose proof (np_round_nearest (_x_pos_EFCS rb)) as Hx.
  pose proof (np_round_nearest (_y_pos_EFCS rb)) as Hy.
  assert (Hstate : rb' = match wall_collision with
                         | NO => rb
                         | WALL_VERTICAL =>
                             set_x_pos_EFCS (np_round (_x_pos_EFCS rb)) rb
                         | WALL_HORIZONTAL =>
                             set_y_pos_EFCS (np_round (_y_pos_EFCS rb)) rb
                         | _ =>
                             set_y_pos_EFCS (np_round (_y_pos_EFCS rb))
                               (set_x_pos_EFCS (np_round (_x_pos_EFCS rb)) rb)
                         end).
  { subst rb'. unfold state_after. subst restriction.
    unfold collision_restriction. run_method. rewrite Hp.
    destruct wall_collision; reflexivity. }
  split; [| split].
  - destruct wall_collision; rewrite Hstate; cbn; try (split; assumption);
      try (split; [assumption | reflexivity]);
      try (split; [reflexivity | assumption]).
    split; [| reflexivity]. unfold ending. rewrite Hrun. reflexivity.
  - rewrite Hstate. destruct wall_collision; reflexivity.
  - intros Hw.
    destruct (ending restriction rb) as [[b1 b2]|e] eqn:Hend.
    + exists b1, b2. split; [reflexivity|].
      apply (Hstep (b1, b2)). rewrite Hrun.
      destruct wall_collision; try contradiction; reflexivity.
    + exfalso. unfold ending in Hend. rewrite Hrun in Hend.
      destruct wall_collision; try contradiction; discriminate.
Qed.

(** A robot at x = 4.6 that touches a vertical wall. *)
Lemma wall_collision_snaps_to_nearest_integer_witness :
  let rb := default_robot 4.6 0 in
  let rb' := state_after
               (collision_restriction WALL_VERTICAL NO (@nil RobotModel)) rb in
  nearest_integer_ties_even (_x_pos_EFCS rb) (_x_pos_EFCS rb')
  /\ _y_pos_EFCS rb' = _y_pos_EFCS rb.
Proof.
  intros rb rb'.
  assert (Hplayers : NO <> PLAYER) by discriminate.
  exact (proj1 (wall_collision_snaps_to_nearest_integer
                  RobotModel RobotModel_Collidable rb WALL_VERTICAL NO []
                  5 5 ball_model.NO Hplayers)).
Defined.

Lemma np_round_five_halves : np_round (5 / 2) = 2.
Proof.
  unfold np_round.
  assert (Hf : Int_part (5 / 2) = 2%Z).
  { symmetry. apply Int_part_spec. lra. }
  rewrite Hf.
  destruct (Rlt_dec (5 / 2 - 2) (1 / 2)) as [H|_]; [lra|].
  destruct (Rlt_dec (1 / 2) (5 / 2 - 2)) as [H|_]; [lra|].
  reflexivity.
Qed.

(** C4 as stated fails.  A robot at x = 2.5 that touches a vertical wall
    is snapped to x = 2: the integers 2 and 3 are equally near, the one
    toward the field edge is 3, and [np.round] takes the even one, which
    lies toward the centre of the field. *)
Lemma snap_is_not_toward_the_edge :
  exists rb : RobotModel,
    init_default (5 / 2) 0 = Returned rb
    /\ (let rb' := state_after
                     (collision_restriction WALL_VERTICAL NO (@nil RobotModel))
                     rb in
        _x_pos_EFCS rb' = 2
        /\ Rabs (3 - _x_pos_EFCS rb) = Rabs (_x_pos_EFCS rb' - _x_pos_EFCS rb)
        /\ rounds_toward_edge (_x_pos_EFCS rb) 3
        /\ ~ rounds_toward_edge (_x_pos_EFCS rb) (_x_pos_EFCS rb')).
Proof.
  exists (default_robot (5 / 2) 0).
  split; [apply init_default_run|].
  cbv zeta.
  assert (Hx : _x_pos_EFCS
                 (state_after
                    (collision_restriction WALL_VERTICAL NO (@nil RobotModel))
                    (default_robot (5 / 2) 0)) = 2).
  { unfold state_after, collision_restriction. run_method. cbn.
    apply np_round_five_halves. }
  rewrite Hx. cbn [default_robot _x_pos_EFCS].
  unfold rounds_toward_edge.
  replace (3 - 5 / 2) with (1 / 2) by lra.
  replace (2 - 5 / 2) with (- (1 / 2)) by lra.
  rewrite Rabs_Ropp.
  rewrite !Rabs_pos_eq by lra.
  repeat split; try lra.
Qed.

End RobotFacts.

(** * More of the ball model *)

Section BallCoverage.
Import ball_model.

(** *** Free motion *)

Lemma advance_still (b : BallBasicModel) :
  _x_vel b = 0 -> _y_vel b = 0 -> advance 0 0 b = b.
Proof.
  intros Hx Hy. destruct b as [dt h vx vy mv x y f m c r].
  cbn in *. subst vx vy. unfold advance. cbn. f_equal; ring.
Qed.

Lemma step_below_cutoff (b : BallBasicModel) :
  _mass b <> 0 ->
  Rabs (- speed b * _friction b / _mass b) <= 0.01 ->
  step b = (advance 0 0 b, Returned tt).
Proof.
  intros Hm Hacc. rewrite (ball_step_run b Hm). cbv zeta.
  destruct (Rgt_dec (Rabs (- speed b * _friction b / _mass b)) 0.01);
    [lra | reflexivity].
Qed.

Lemma speed_of_still (b : BallBasicModel) :
  _x_vel b = 0 -> _y_vel b = 0 -> speed b = 0.
Proof.
  intros Hx Hy. unfold speed. rewrite Hx, Hy.
  replace (0 ^ 2 + 0 ^ 2) with 0 by ring. apply sqrt_0.
Qed.

(** X1: the idle invariant of [test_ball_stationary].  A ball with zero
    velocity and a non-zero mass is left exactly as it is by any number of
    [step] calls, and none of them raises. *)
Theorem ball_at_rest_stays (b : BallBasicModel) (n : nat)
        (Hm : _mass b <> 0) (Hx : _x_vel b = 0) (Hy : _y_vel b = 0) :
  repeat_method n step b = (b, Returned tt).
Proof.
  induction n as [| n IH]; [reflexivity|].
  cbn [repeat_method]. unfold bind.
  rewrite (step_below_cutoff b Hm).
  - rewrite (advance_still b Hx Hy). exact IH.
  - rewrite (speed_of_still b Hx Hy).
    replace (- 0 * _friction b / _mass b) with 0 by (field; exact Hm).
    rewrite Rabs_R0. lra.
Qed.

Lemma ball_at_rest_stays_witness :
  repeat_method 1000 step (init_default 0 0) = (init_default 0 0, Returned tt).
Proof.
  apply ball_at_rest_stays; cbn; [lra | reflexivity | reflexivity].
Defined.

(** X2: friction has a floor.  Once the deceleration [speed * friction /
    mass] is at most the 0.01 cutoff, [step] no longer slows the ball: it
    keeps its velocity for ever and after [n] steps it has moved by
    [n * dt] times that velocity.  A ball that moves this slowly never
    comes to rest. *)
Theorem ball_coasts_below_cutoff (b : BallBasicModel) (n : nat)
        (Hm : _mass b <> 0)
        (Hacc : Rabs (- speed b * _friction b / _mass b) <= 0.01) :
  let b' := state_after (repeat_method n step) b in
  ending (repeat_method n step) b = Returned tt
  /\ _x_vel b' = _x_vel b /\ _y_vel b' = _y_vel b
  /\ _x_pos b' = _x_pos b + INR n * (_x_vel b * _dt b)
  /\ _y_pos b' = _y_pos b + INR n * (_y_vel b * _dt b).
Proof.
  revert b Hm Hacc. induction n as [| n IH]; intros b Hm Hacc b'.
  - subst b'. cbn. repeat split; ring.
  - subst b'. unfold ending, state_after. cbn [repeat_method]. unfold bind.
    rewrite (step_below_cutoff b Hm Hacc).
    assert (Hm' : _mass (advance 0 0 b) <> 0) by exact Hm.
    assert (Hsp : speed (advance 0 0 b) = speed b).
    { unfold speed, advance. cbn. f_equal. ring. }
    assert (Hacc' : Rabs (- speed (advance 0 0 b) * _friction (advance 0 0 b)
                          / _mass (advance 0 0 b)) <= 0.01).
    { rewrite Hsp. exact Hacc. }
    destruct (IH (advance 0 0 b) Hm' Hacc') as (E & Vx & Vy & Px & Py).
    unfold ending, state_after in *.
    rewrite E, Vx, Vy, Px, Py. rewrite S_INR. unfold advance. cbn.
    repeat split; ring.
Qed.

(** The default ball rolling at 0.1 m/s: its deceleration is exactly at
    the cutoff. *)
Lemma ball_coasts_below_cutoff_witness :
  let b := ball_with_velocity (init_default 0 0) 0.1 0 in
  _x_vel (state_after (repeat_method 10 step) b) = _x_vel b.
Proof.
  intros b.
  assert (Hm : _mass b <> 0) by (cbn; lra).
  assert (Hsp : speed b = 0.1).
  { unfold speed. cbn. replace (0.1 * (0.1 * 1) + 0 * (0 * 1)) with (0.1 ^ 2) by ring.
    apply sqrt_pow2. lra. }
  assert (Hacc : Rabs (- speed b * _friction b / _mass b) <= 0.01).
  { rewrite Hsp. cbn. rewrite Rabs_left1 by lra. lra. }
  exact (proj1 (proj2 (ball_coasts_below_cutoff b 10 Hm Hacc))).
Defined.

(** X3: the motion of one [step] is rectilinear.  The displacement of the
    ball and its new velocity are both parallel to the velocity it had. *)
Theorem ball_step_is_rectilinear (b : BallBasicModel) (Hm : _mass b <> 0) :
  let b' := state_after step b in
  (_x_pos b' - _x_pos b) * _y_vel b = (_y_pos b' - _y_pos b) * _x_vel b
  /\ _x_vel b' * _y_vel b = _y_vel b' * _x_vel b.
Proof.
  intros b'. subst b'. unfold state_after. rewrite (ball_step_run b Hm).
  cbv zeta.
  destruct (Rgt_dec (Rabs (- speed b * _friction b / _mass b)) 0.01) as [Hacc|_].
  - assert (Hsp : speed b <> 0).
    { intros E. rewrite E in Hacc.
      replace (- 0 * _friction b / _mass b) with 0 in Hacc by (field; exact Hm).
      rewrite Rabs_R0 in Hacc. lra. }
    unfold advance. cbn. split; field; tauto.
  - unfold advance. cbn. split; ring.
Qed.

Lemma ball_step_is_rectilinear_witness :
  let b := ball_with_velocity (init_default 0 0) 1 (-2) in
  let b' := state_after step b in
  (_x_pos b' - _x_pos b) * _y_vel b = (_y_pos b' - _y_pos b) * _x_vel b
  /\ _x_vel b' * _y_vel b = _y_vel b' * _x_vel b.
Proof.
  intros b b'.
  assert (Hm : _mass b <> 0) by (cbn; lra).
  exact (ball_step_is_rectilinear b Hm).
Defined.

(** X4: [step] raises exactly when the mass is zero, the exception is
    [ZeroDivisionError], and the ball is then left untouched. *)
Theorem ball_step_raises_iff_massless :
  forall b : BallBasicModel,
    (ending step b = Raised ZeroDivisionError <-> _mass b = 0)
    /\ (forall e : exn, ending step b = Raised e -> e = ZeroDivisionError)
    /\ (_mass b = 0 -> state_after step b = b).
Proof.
  intros b.
  destruct (Req_dec_T (_mass b) 0) as [E|N].
  - assert (Hrun : step b = (b, Raised ZeroDivisionError)).
    { unfold step. run_method.
      destruct (Req_dec_T (_mass b) 0); [reflexivity | contradiction]. }
    unfold ending, state_after. rewrite Hrun. cbn.
    split; [tauto|]. split; [| reflexivity].
    intros e He. injection He as <-. reflexivity.
  - unfold ending, state_after. rewrite (ball_step_run b N). cbv zeta.
    destruct (Rgt_dec _ _); cbn;
      (split; [split; [discriminate | contradiction]|]);
      (split; [discriminate | contradiction]).
Qed.

(** *** Wall rebound *)

(** X5: a corner bounce is a vertical bounce and a horizontal bounce, in
    either order. *)
Theorem corner_is_vertical_and_horizontal :
  forall (T : Type) (o : T) (b : BallBasicModel),
    (_wall_collision o "vertical" ;; _wall_collision o "horizontal") b
    = _wall_collision o "corner" b
    /\ (_wall_collision o "horizontal" ;; _wall_collision o "vertical") b
       = _wall_collision o "corner" b.
Proof.
  intros T o b. unfold bind. rewrite !wall_collision_run.
  cbn. split; reflexivity.
Qed.

Lemma sqrt_sum_squares_le (a b c d : R) :
  Rabs a <= Rabs c -> Rabs b <= Rabs d ->
  sqrt (a ^ 2 + b ^ 2) <= sqrt (c ^ 2 + d ^ 2).
Proof.
  intros Ha Hb. apply sqrt_le_1_alt.
  apply Rsqr_le_abs_1 in Ha. apply Rsqr_le_abs_1 in Hb.
  unfold Rsqr in *. nra.
Qed.

Lemma Rabs_scaled_le (v k : R) : Rabs k <= 1 -> Rabs (v * k) <= Rabs v.
Proof.
  intros Hk. rewrite Rabs_mult. pose proof (Rabs_pos v). nra.
Qed.

(** X6: with a bounce coefficient between 0 and 1 no wall bounce makes
    the ball faster, whatever the orientation string. *)
Theorem wall_bounce_does_not_speed_up
        (T : Type) (o : T) (s : string) (b : BallBasicModel)
        (Hc : 0 <= _vel_bounce_coefficient b <= 1) :
  speed (state_after (_wall_collision o s) b) <= speed b.
Proof.
  unfold state_after. rewrite wall_collision_run. cbv zeta.
  assert (Hk : Rabs (-1 * _vel_bounce_coefficient b) <= 1).
  { apply Rabs_le. lra. }
  unfold speed.
  destruct ((s =? "vertical") || (s =? "corner"))%string;
    destruct ((s =? "horizontal") || (s =? "corner"))%string; cbn [fst];
    apply sqrt_sum_squares_le; cbn;
    try apply Rabs_scaled_le; try exact Hk; apply Rle_refl.
Qed.

Lemma wall_bounce_does_not_speed_up_witness :
  let b := ball_with_velocity (init_default 0 0) 1 2 in
  speed (state_after (_wall_collision tt "corner") b) <= speed b.
Proof.
  intros b. apply wall_bounce_does_not_speed_up. cbn. lra.
Defined.

(** *** Kick and receive *)

Lemma kick_collision_run
      (T : Type) (C : Collidable T) (player : T) (b : BallBasicModel)
      (kick_vel px py : R) :
  collision_object.get_position_components_wcs player = Returned (px, py) ->
  let dx := _x_pos b - px in
  let dy := _y_pos b - py in
  let d := sqrt (dx ^ 2 + dy ^ 2) in
  d <> 0 ->
  _kick_collision player (Some kick_vel) b
  = (ball_with_velocity b (py_min kick_vel (_max_vel b) * dx / d)
                          (py_min kick_vel (_max_vel b) * dy / d),
     Returned tt).
Proof.
  intros Hpos dx dy d Hd. unfold _kick_collision. run_method. rewrite Hpos.
  fold dx dy d. destruct (Req_dec_T d 0); [contradiction | reflexivity].
Qed.

(** X7: after a kick by a body that is not at the ball's position the
    speed of the ball is [|min(kick_vel, _max_vel)|]; a non-negative
    request therefore never sends the ball off faster than [_max_vel]. *)
Theorem kick_speed_is_clamped
        (T : Type) (C : Collidable T) (player : T) (b : BallBasicModel)
        (kick_vel px py : R)
        (Hpos : collision_object.get_position_components_wcs player
                = Returned (px, py))
        (Hdistinct : (px, py) <> (_x_pos b, _y_pos b)) :
  let b' := state_after (_kick_collision player (Some kick_vel)) b in
  speed b' = Rabs (Rmin kick_vel (_max_vel b))
  /\ (0 <= kick_vel -> 0 <= _max_vel b -> speed b' <= _max_vel b).
Proof.
  intros b'.
  set (dx := _x_pos b - px). set (dy := _y_pos b - py).
  set (d := sqrt (dx ^ 2 + dy ^ 2)).
  assert (Hd : 0 < d).
  { apply distance_pos. intros [Ex Ey]. apply Hdistinct.
    subst dx dy. f_equal; lra. }
  assert (Hsq : d * d = dx ^ 2 + dy ^ 2) by (apply sqrt_sqrt; nra).
  assert (Hsp : speed b' = Rabs (Rmin kick_vel (_max_vel b))).
  { subst b'. unfold state_after.
    rewrite (kick_collision_run T C player b kick_vel px py Hpos);
      [| fold dx dy d; lra].
    fold dx dy d. rewrite py_min_Rmin.
    set (k := Rmin kick_vel (_max_vel b)).
    unfold speed. cbn.
    replace (k * dx / d * (k * dx / d * 1) + k * dy / d * (k * dy / d * 1))
      with (k ^ 2 * ((dx ^ 2 + dy ^ 2) / (d * d))) by (field; lra).
    rewrite <- Hsq.
    replace (k ^ 2 * (d * d / (d * d))) with (k ^ 2) by (field; lra).
    replace (k ^ 2) with (Rsqr k) by (unfold Rsqr; ring).
    apply sqrt_Rsqr_abs. }
  split; [exact Hsp|].
  intros Hk Hmax. rewrite Hsp. unfold Rmin.
  destruct (Rle_dec kick_vel (_max_vel b)); rewrite Rabs_pos_eq; lra.
Qed.

Lemma kick_speed_is_clamped_witness :
  speed (state_after (_kick_collision (mkDummpPlayer 1 (-3) 0 0 0.1) (Some 5))
                     (init_default 0 0))
  = Rabs (Rmin 5 3).
Proof.
  assert (Hd : (1, -3) <> (_x_pos (init_default 0 0), _y_pos (init_default 0 0))).
  { cbn. intros E. injection E as E _. lra. }
  exact (proj1 (kick_speed_is_clamped
                  DummpPlayer DummpPlayer_Collidable
                  (mkDummpPlayer 1 (-3) 0 0 0.1) (init_default 0 0) 5 1 (-3)
                  eq_refl Hd)).
Defined.

(** X8: [_receive_collision] gives the ball the velocity the body
    reports and changes nothing else; receiving again from the same body
    changes nothing at all. *)
Theorem receive_is_idempotent
        (T : Type) (C : Collidable T) (player : T) (b : BallBasicModel)
        (pvx pvy : R)
        (Hvel : collision_object.get_velocity_components_wcs player
                = Returned (pvx, pvy)) :
  let b' := state_after (_receive_collision player) b in
  _receive_collision player b = (ball_with_velocity b pvx pvy, Returned tt)
  /\ _receive_collision player b' = (b', Returned tt).
Proof.
  intros b'. subst b'. unfold state_after, _receive_collision. run_method.
  rewrite Hvel. cbn. split; reflexivity.
Qed.

(** The example of the spec: a player moving at (2, -1). *)
Lemma receive_is_idempotent_witness :
  let player := mkDummpPlayer 0 0 2 (-1) 0.1 in
  let b := ball_with_velocity (init_default 0 0) 5 3 in
  _receive_collision player b = (ball_with_velocity b 2 (-1), Returned tt).
Proof.
  intros player b.
  exact (proj1 (receive_is_idempotent DummpPlayer DummpPlayer_Collidable
                                      player b 2 (-1) eq_refl)).
Defined.

(** *** Elastic rebound *)

Lemma reflect_at_run (px py pvx pvy cx cy : R) (b : BallBasicModel) :
  (cx - px) * (cx - px) + (cy - py) * (cy - py) <> 0 ->
  ~ (_x_vel b = 0 /\ _y_vel b = 0) ->
  let r := reflect (_x_vel b) (_y_vel b) (cx - px) (cy - py) in
  reflect_at px py pvx pvy cx cy b b
  = (ball_with_velocity b (pvx + fst r) (pvy + snd r), Returned tt).
Proof.
  intros Hn Hm r. subst r. unfold reflect_at, reflect. run_method.
  destruct (Req_dec_T ((cx - px) * (cx - px) + (cy - py) * (cy - py)) 0)
    as [E|_]; [contradiction|].
  rewrite (reflection_keeps_norm (_x_vel b) (_y_vel b) (cx - px) (cy - py) Hn).
  pose proof (distance_pos (_x_vel b) (_y_vel b) Hm) as Hpos.
  destruct (Req_dec_T (sqrt (_x_vel b ^ 2 + _y_vel b ^ 2)) 0) as [E|N]; [lra|].
  unfold ball_with_velocity, set_y_vel, set_x_vel. cbn.
  do 2 f_equal; field; (split; [exact Hn | exact N]).
Qed.

(** The contact point that the rebound computes: it lies on the body's
    circle, and the rebound is the reflection at that point. *)
Lemma elastic_collision_contact
      (T : Type) (C : Collidable T) (player : T) (b : BallBasicModel)
      (px py pvx pvy : R) (q : R * R * R) :
  collision_object.get_position_components_wcs player = Returned (px, py) ->
  collision_object.get_velocity_components_wcs player = Returned (pvx, pvy) ->
  ending (intersection_quadratic px py (collision_object.radius player)) b
  = Returned q ->
  0 <= discriminant q ->
  exists cx cy : R,
    (cx - px) * (cx - px) + (cy - py) * (cy - py)
    = collision_object.radius player ^ 2
    /\ (_x_vel b >= 0.001 -> (cy - _y_pos b) * _x_vel b = (cx - _x_pos b) * _y_vel b)
    /\ (~ _x_vel b >= 0.001 -> cx = _x_pos b)
    /\ _elastic_collision_with_round_player player b
       = reflect_at px py pvx pvy cx cy b b.
Proof.
  intros Hpos Hvel Hq Hd.
  unfold ending in Hq. rewrite intersection_quadratic_run in Hq.
  cbn in Hq. injection Hq as Hq. subst q.
  unfold _elastic_collision_with_round_player.
  unfold bind at 1. unfold lift at 1. rewrite Hpos.
  unfold bind at 1. unfold get at 1.
  unfold bind at 1. unfold lift at 1. rewrite Hvel.
  unfold bind at 1. rewrite intersection_quadratic_run.
  set (pr := collision_object.radius player) in *.
  destruct (Rge_dec (_x_vel b) 0.001) as [Hge|Hlt].
  - assert (Hvx : _x_vel b <> 0) by lra.
    pose proof (fun x => slope_form_is_substitution px py pr b x Hvx) as Hsub.
    unfold slope_form_quadratic, discriminant in *.
    cbv beta iota zeta in Hsub.
    set (k := _y_vel b / _x_vel b) in *.
    set (a := 1 + k ^ 2) in *.
    set (bq := -2 * (px + (k * _x_pos b - _y_pos b + py) * k)) in *.
    set (c := px ^ 2 + (k * _x_pos b - _y_pos b + py) ^ 2 - pr ^ 2) in *.
    assert (Ha : 0 < a) by (subst a; nra).
    clearbody a bq c.
    set (delta := bq ^ 2 - 4 * a * c) in *.
    destruct (Rlt_dec delta 0) as [Hneg|_]; [lra|].
    pose proof (sqrt_sqrt delta Hd) as Hs.
    set (s := sqrt delta) in *. clearbody s. subst delta.
    run_method.
    destruct (Req_dec_T (2 * a) 0) as [E|_]; [lra|].
    destruct (Req_dec_T (_x_vel b) 0) as [E|_]; [contradiction|].
    assert (Hcircle : forall x : R,
               x = (- bq + s) / (2 * a) \/ x = (- bq - s) / (2 * a) ->
               (x - px) * (x - px)
               + (_y_pos b + _y_vel b * (x - _x_pos b) / _x_vel b - py)
                 * (_y_pos b + _y_vel b * (x - _x_pos b) / _x_vel b - py)
               = pr ^ 2).
    { intros x Hx.
      pose proof (root_solves_quadratic a bq c s x (Rgt_not_eq _ _ Ha) Hs Hx)
        as Hroot.
      rewrite Hsub in Hroot.
      replace (_y_vel b * (x - _x_pos b) / _x_vel b)
        with (k * (x - _x_pos b)) by (subst k; field; exact Hvx).
      nra. }
    match goal with
    | |- context [if ?t then _ else _] => destruct t
    end;
    match goal with
    | |- context [Req_dec_T ((?cx - px) * (?cx - px) + (?cy - py) * (?cy - py)) 0] =>
        exists cx, cy;
        (split; [apply Hcircle; tauto|]);
        (split; [intros _; field; (split; [lra | exact Hvx])|]);
        (split; [intros N; contradiction|]);
        reflexivity
    end.
  - pose proof (vertical_form_is_substitution px py pr b) as Hsub.
    unfold vertical_form_quadratic, discriminant in *.
    cbv beta iota zeta in Hsub.
    set (bq := -2 * py) in *.
    set (c := py ^ 2 + (_x_pos b - px) ^ 2 - pr ^ 2) in *.
    clearbody bq c.
    set (delta := bq ^ 2 - 4 * 1 * c) in *.
    destruct (Rlt_dec delta 0) as [Hneg|_]; [lra|].
    pose proof (sqrt_sqrt delta Hd) as Hs.
    set (s := sqrt delta) in *. clearbody s. subst delta.
    run_method.
    destruct (Req_dec_T (2 * 1) 0) as [E|_]; [lra|].
    assert (Hcircle : forall y : R,
               y = (- bq + s) / (2 * 1) \/ y = (- bq - s) / (2 * 1) ->
               (_x_pos b - px) * (_x_pos b - px) + (y - py) * (y - py) = pr ^ 2).
    { intros y Hy.
      pose proof (root_solves_quadratic 1 bq c s y R1_neq_R0 Hs Hy) as Hroot.
      rewrite Hsub in Hroot. nra. }
    match goal with
    | |- context [if ?t then _ else _] => destruct t
    end;
    match goal with
    | |- context [Req_dec_T ((?cx - px) * (?cx - px) + (?cy - py) * (?cy - py)) 0] =>
        exists cx, cy;
        (split; [apply Hcircle; tauto|]);
        (split; [intros N; contradiction|]);
        (split; [intros _; reflexivity|]);
        reflexivity
    end.
Qed.

(** X9: what a hit does.  When the body's radius is not zero, the ball
    moves and the discriminant is not negative, the rebound returns
    normally and only changes the velocity: there is a contact point on
    the body's circle (on the ball's line when [vx >= 0.001], on the
    vertical through the ball otherwise) such that the new velocity is the
    body's velocity plus the old velocity reflected at the normal through
    that point.  Relative to the body the ball leaves with the speed it
    came with: nothing is lost in the bounce. *)
Theorem elastic_rebound_is_reflection
        (T : Type) (C : Collidable T) (player : T) (b : BallBasicModel)
        (px py pvx pvy : R) (q : R * R * R)
        (Hpos : collision_object.get_position_components_wcs player
                = Returned (px, py))
        (Hvel : collision_object.get_velocity_components_wcs player
                = Returned (pvx, pvy))
        (Hr : collision_object.radius player <> 0)
        (Hm : ~ (_x_vel b = 0 /\ _y_vel b = 0))
        (Hq : ending (intersection_quadratic
                        px py (collision_object.radius player)) b
              = Returned q)
        (Hhit : 0 <= discriminant q) :
  let b' := state_after (_elastic_collision_with_round_player player) b in
  ending (_elastic_collision_with_round_player player) b = Returned tt
  /\ b' = ball_with_velocity b (_x_vel b') (_y_vel b')
  /\ (exists cx cy : R,
         (cx - px) ^ 2 + (cy - py) ^ 2 = collision_object.radius player ^ 2
         /\ (_x_vel b >= 0.001 ->
             (cy - _y_pos b) * _x_vel b = (cx - _x_pos b) * _y_vel b)
         /\ (~ _x_vel b >= 0.001 -> cx = _x_pos b)
         /\ (_x_vel b', _y_vel b')
            = (pvx + fst (reflect (_x_vel b) (_y_vel b) (cx - px) (cy - py)),
               pvy + snd (reflect (_x_vel b) (_y_vel b) (cx - px) (cy - py))))
  /\ (_x_vel b' - pvx) ^ 2 + (_y_vel b' - pvy) ^ 2
     = _x_vel b ^ 2 + _y_vel b ^ 2.
Proof.
  intros b'.
  destruct (elastic_collision_contact T C player b px py pvx pvy q
                                      Hpos Hvel Hq Hhit)
    as (cx & cy & Hcircle & Hline & Hvert & Hrun).
  assert (Hn : (cx - px) * (cx - px) + (cy - py) * (cy - py) <> 0).
  { rewrite Hcircle. intros E. apply Hr.
    apply Rmult_integral in E. destruct E as [E|E]; [exact E|].
    apply Rmult_integral in E. destruct E as [E|E]; [exact E | lra]. }
  rewrite (reflect_at_run px py pvx pvy cx cy b Hn Hm) in Hrun. cbv zeta in Hrun.
  subst b'. unfold ending, state_after. rewrite Hrun. cbn [fst snd].
  split; [reflexivity|].
  split; [reflexivity|].
  split.
  - exists cx, cy.
    split; [rewrite <- Hcircle; ring|].
    split; [exact Hline|]. split; [exact Hvert | reflexivity].
  - pose proof (reflection_keeps_norm (_x_vel b) (_y_vel b)
                                      (cx - px) (cy - py) Hn) as Hnorm.
    cbv zeta in Hnorm. unfold reflect. cbn [fst snd].
    unfold ball_with_velocity, set_y_vel, set_x_vel. cbn [_x_vel _y_vel].
    rewrite <- Hnorm. ring.
Qed.

(** The first case of the tests: a ball at the origin flying up at a
    player of radius 0.1 at (0, 10). *)
Lemma elastic_rebound_is_reflection_witness :
  let player := mkDummpPlayer 0 10 0 0 0.1 in
  let b := ball_with_velocity (init_default 0 0) 0 5 in
  ending (_elastic_collision_with_round_player player) b = Returned tt.
Proof.
  intros player b.
  assert (Hr : collision_object.radius player <> 0) by (cbn; lra).
  assert (Hm : ~ (_x_vel b = 0 /\ _y_vel b = 0)) by (cbn; lra).
  assert (Hq : ending (intersection_quadratic
                         0 10 (collision_object.radius player)) b
               = Returned (vertical_form_quadratic 0 10 0.1 b)).
  { unfold ending. rewrite intersection_quadratic_run. cbn.
    destruct (Rge_dec 0 0.001); [lra | reflexivity]. }
  assert (Hhit : 0 <= discriminant (vertical_form_quadratic 0 10 0.1 b))
    by (cbn; lra).
  exact (proj1 (elastic_rebound_is_reflection
                  DummpPlayer DummpPlayer_Collidable player b 0 10 0 0
                  (vertical_form_quadratic 0 10 0.1 b)
                  eq_refl eq_refl Hr Hm Hq Hhit)).
Defined.

(** *** A ball that flies past *)

(** The rebound when the code takes its vertical form and finds a
    non-negative discriminant: the contact point is on the vertical
    through the ball, at the root nearer the ball. *)
Lemma elastic_collision_vertical_run
      (T : Type) (C : Collidable T) (player : T) (b : BallBasicModel)
      (px py pvx pvy : R) :
  collision_object.get_position_components_wcs player = Returned (px, py) ->
  collision_object.get_velocity_components_wcs player = Returned (pvx, pvy) ->
  ~ _x_vel b >= 0.001 ->
  let pr := collision_object.radius player in
  let bq := -2 * py in
  let c := py ^ 2 + (_x_pos b - px) ^ 2 - pr ^ 2 in
  let delta := bq ^ 2 - 4 * 1 * c in
  let sol1 := (- bq + sqrt delta) / (2 * 1) in
  let sol2 := (- bq - sqrt delta) / (2 * 1) in
  let cy :=
    if Rlt_dec ((_x_pos b - _x_pos b) ^ 2 + (sol1 - _y_pos b) ^ 2)
               ((_x_pos b - _x_pos b) ^ 2 + (sol2 - _y_pos b) ^ 2)
    then sol1 else sol2 in
  0 <= delta ->
  _elastic_collision_with_round_player player b
  = reflect_at px py pvx pvy (_x_pos b) cy b b.
Proof.
  intros Hpos Hvel Hlt pr bq c delta sol1 sol2 cy Hd.
  unfold _elastic_collision_with_round_player.
  unfold bind at 1. unfold lift at 1. rewrite Hpos.
  unfold bind at 1. unfold get at 1.
  unfold bind at 1. unfold lift at 1. rewrite Hvel.
  unfold bind at 1. rewrite intersection_quadratic_run.
  fold pr.
  destruct (Rge_dec (_x_vel b) 0.001) as [Hge|_]; [contradiction|].
  unfold vertical_form_quadratic. fold bq c. fold delta.
  destruct (Rlt_dec delta 0) as [Hneg|_]; [lra|].
  run_method.
  destruct (Req_dec_T (2 * 1) 0) as [E|_]; [lra|].
  fold sol1 sol2. subst cy.
  destruct (Rlt_dec ((_x_pos b - _x_pos b) ^ 2 + (sol1 - _y_pos b) ^ 2)
                    ((_x_pos b - _x_pos b) ^ 2 + (sol2 - _y_pos b) ^ 2));
    reflexivity.
Qed.

(** C8: the code returns without touching the ball when the discriminant
    it has computed is negative, but for a ball flying left that is the
    discriminant of the vertical through the ball, not of the ball's line.
    A ball at (3, 6) with velocity (-1, 0) flies along y = 6 and never
    meets the circle of radius 5 round the origin: the quadratic of its
    line has the discriminant -44.  The code intersects x = 3 with the
    circle instead, finds the discriminant 64 and the point (3, 4), and
    sends the ball off with velocity (-7/25, 24/25). *)
Theorem elastic_collision_reflects_a_ball_that_flies_past :
  let b := ball_with_velocity (init_default 3 6) (-1) 0 in
  let player := mkDummpPlayer 0 0 0 0 5 in
  (forall t : R,
      (_x_pos b + _x_vel b * t - x player) ^ 2
      + (_y_pos b + _y_vel b * t - y player) ^ 2 > r player ^ 2)
  /\ discriminant (spec_intersection_quadratic 0 0 5 b) = -44
  /\ ending (intersection_quadratic 0 0 5) b
     = Returned (vertical_form_quadratic 0 0 5 b)
  /\ discriminant (vertical_form_quadratic 0 0 5 b) = 64
  /\ ending (_elastic_collision_with_round_player player) b = Returned tt
  /\ _x_vel (state_after (_elastic_collision_with_round_player player) b)
     = -7 / 25
  /\ _y_vel (state_after (_elastic_collision_with_round_player player) b)
     = 24 / 25.
Proof.
  intros b player.
  split; [intros t; cbn; nra|].
  split.
  { unfold spec_intersection_quadratic.
    destruct (Rge_dec (Rabs (_x_vel b)) 0.001) as [_|N].
    - unfold slope_form_quadratic, discriminant. cbn. field.
    - exfalso. apply N. cbn. rewrite Rabs_left by lra. lra. }
  split.
  { unfold ending. rewrite intersection_quadratic_run. cbn.
    destruct (Rge_dec (-1) 0.001); [lra | reflexivity]. }
  split; [cbn; lra|].
  assert (Hlt : ~ _x_vel b >= 0.001) by (cbn; lra).
  pose proof (elastic_collision_vertical_run
                DummpPlayer DummpPlayer_Collidable player b 0 0 0 0
                eq_refl eq_refl Hlt) as Hrun.
  cbv zeta in Hrun.
  assert (Hdelta : (-2 * 0) ^ 2
                   - 4 * 1 * (0 ^ 2 + (_x_pos b - 0) ^ 2
                              - collision_object.radius player ^ 2) = 8 * 8).
  { cbn. lra. }
  rewrite Hdelta in Hrun. rewrite sqrt_square in Hrun by lra.
  assert (Hnear : (_x_pos b - _x_pos b) ^ 2
                  + ((- (-2 * 0) + 8) / (2 * 1) - _y_pos b) ^ 2
                  < (_x_pos b - _x_pos b) ^ 2
                    + ((- (-2 * 0) - 8) / (2 * 1) - _y_pos b) ^ 2).
  { cbn. lra. }
  destruct (Rlt_dec _ _) as [_|N] in Hrun; [| contradiction].
  assert (Hd : 0 <= 8 * 8) by lra.
  specialize (Hrun Hd).
  assert (Hn : (_x_pos b - 0) * (_x_pos b - 0)
               + ((- (-2 * 0) + 8) / (2 * 1) - 0)
                 * ((- (-2 * 0) + 8) / (2 * 1) - 0) <> 0).
  { cbn. lra. }
  assert (Hm : ~ (_x_vel b = 0 /\ _y_vel b = 0)) by (cbn; lra).
  rewrite (reflect_at_run 0 0 0 0 (_x_pos b) ((- (-2 * 0) + 8) / (2 * 1)) b Hn Hm)
    in Hrun.
  cbv zeta in Hrun.
  unfold ending, state_after. rewrite Hrun. cbn [fst snd].
  split; [reflexivity|].
  unfold reflect, ball_with_velocity, set_y_vel, set_x_vel. cbn.
  split; field.
Qed.

End BallCoverage.

(** * More of the robot model *)

Section RobotCoverage.
Import robot_model.

(** *** Coordinate frames and construction *)

(** X10: the two frame conversions undo each other when the frame
    rotation is 0 or [PI], in both orders, and both raise [ValueError] for
    any other rotation. *)
Theorem frame_conversions_are_inverse :
  forall (rb : RobotModel) (x y : R),
    (_cord_system_rot rb = 0 \/ _cord_system_rot rb = PI ->
     (exists x' y' : R,
         _convert_field_CS_to_EFCS (_cord_system_rot rb) x y = Returned (x', y')
         /\ _convert_EFCS_to_field_CS rb x' y' = Returned (x, y))
     /\ (exists x' y' : R,
            _convert_EFCS_to_field_CS rb x y = Returned (x', y')
            /\ _convert_field_CS_to_EFCS (_cord_system_rot rb) x' y'
               = Returned (x, y)))
    /\ (~ (_cord_system_rot rb = 0 \/ _cord_system_rot rb = PI) ->
        _convert_field_CS_to_EFCS (_cord_system_rot rb) x y = Raised ValueError
        /\ _convert_EFCS_to_field_CS rb x y = Raised ValueError).
Proof.
  intros rb x y.
  unfold _convert_field_CS_to_EFCS, _convert_EFCS_to_field_CS.
  destruct (Req_dec_T (_cord_system_rot rb) 0) as [E0|N0];
    [| destruct (Req_dec_T (_cord_system_rot rb) PI) as [Epi|Npi]].
  - split; [| tauto]. intros _.
    split; exists x, y; split; reflexivity.
  - split; [| tauto]. intros _.
    split; exists (- x), (- y); (split; [reflexivity|]); do 2 f_equal; ring.
  - split; [tauto|]. intros _. split; reflexivity.
Qed.

(** X11: the constructor raises [ValueError] exactly when the frame
    rotation is neither 0 nor [PI]; the robot it builds otherwise reports,
    in world coordinates, the position it was given, and stands still with
    heading 0. *)
Theorem constructed_robot_is_where_it_was_put :
  forall init_x_pos init_y_pos dt robot_radius wheel_radius cord_system_rot
         axis_len : R,
    match init init_x_pos init_y_pos dt robot_radius wheel_radius
               cord_system_rot axis_len with
    | Returned rb =>
        (cord_system_rot = 0 \/ cord_system_rot = PI)
        /\ get_position_components_wcs rb = Returned (init_x_pos, init_y_pos)
        /\ get_velocity_components_wcs rb = Returned (0, 0)
        /\ pointing_angle rb = 0 /\ vel rb = 0
    | Raised e =>
        e = ValueError /\ cord_system_rot <> 0 /\ cord_system_rot <> PI
    end.
Proof.
  intros x y dt rr wr rot axis.
  unfold init, _convert_field_CS_to_EFCS.
  destruct (Req_dec_T rot 0) as [E0|N0];
    [| destruct (Req_dec_T rot PI) as [Epi|Npi]].
  - split; [tauto|].
    unfold get_position_components_wcs, get_velocity_components_wcs,
      _convert_EFCS_to_field_CS. cbn.
    destruct (Req_dec_T rot 0); [| contradiction].
    repeat split; do 2 f_equal; ring.
  - split; [tauto|].
    unfold get_position_components_wcs, get_velocity_components_wcs,
      _convert_EFCS_to_field_CS. cbn.
    destruct (Req_dec_T rot 0); [contradiction|].
    destruct (Req_dec_T rot PI); [| contradiction].
    repeat split; do 2 f_equal; ring.
  - repeat split; assumption.
Qed.

Lemma scaled_direction_norm (v t : R) :
  (v * cos t) ^ 2 + (v * sin t) ^ 2 = v ^ 2.
Proof.
  pose proof (sin2_cos2 t) as H. unfold Rsqr in H.
  replace ((v * cos t) ^ 2 + (v * sin t) ^ 2)
    with (v ^ 2 * (sin t * sin t + cos t * cos t)) by ring.
  rewrite H. ring.
Qed.

(** X12: whenever the robot can report its velocity in world
    coordinates, the vector it reports has the length [|vel|]. *)
Theorem reported_velocity_has_length_vel (rb : RobotModel) (vx vy : R)
        (Hv : get_velocity_components_wcs rb = Returned (vx, vy)) :
  vx ^ 2 + vy ^ 2 = vel rb ^ 2.
Proof.
  unfold get_velocity_components_wcs, _convert_EFCS_to_field_CS in Hv.
  pose proof (scaled_direction_norm (vel rb) (pointing_angle rb)) as Hn.
  destruct (Req_dec_T (_cord_system_rot rb) 0);
    [| destruct (Req_dec_T (_cord_system_rot rb) PI)];
    try discriminate; injection Hv as <- <-; rewrite <- Hn; ring.
Qed.

Lemma reported_velocity_has_length_vel_witness :
  let rb := set_vel 1 (default_robot 0 0) in
  (vel rb * cos (pointing_angle rb)) ^ 2 + (vel rb * sin (pointing_angle rb)) ^ 2
  = vel rb ^ 2.
Proof.
  intros rb.
  apply (reported_velocity_has_length_vel rb).
  unfold get_velocity_components_wcs, _convert_EFCS_to_field_CS.
  destruct (Req_dec_T (_cord_system_rot rb) 0) as [_|N];
    [reflexivity | exfalso; apply N; reflexivity].
Defined.

(** *** The kinematics step *)

(** X13: [step] raises exactly when [_axis_len] is zero.  It then raises
    [ZeroDivisionError] after [self.vel] has been assigned: the pose is as
    before, the velocity is the new one.  Otherwise it returns the
    [extra_action] it was given. *)
Theorem robot_step_raises_iff_no_axis :
  forall (rb : RobotModel) (l r : R) (a : ball_model.BallActions),
    let rb' := state_after (step l r a) rb in
    (_axis_len rb = 0 ->
     ending (step l r a) rb = Raised ZeroDivisionError
     /\ rb' = set_vel (_wheel_radius rb / 2 * (l + r)) rb)
    /\ (_axis_len rb <> 0 -> ending (step l r a) rb = Returned a)
    /\ vel rb' = _wheel_radius rb / 2 * (l + r).
Proof.
  intros rb l r a rb'. subst rb'. unfold ending, state_after.
  rewrite robot_step_run. cbv zeta.
  destruct (Req_dec_T (_axis_len rb) 0); cbn;
    repeat split; intros; try reflexivity; contradiction.
Qed.

(** X14: in one [step] that returns, the robot travels the distance
    [|vel| * dt], with [vel] the velocity the step has just set. *)
Theorem robot_step_travels_vel_dt
        (rb : RobotModel) (l r : R) (a : ball_model.BallActions)
        (Haxis : _axis_len rb <> 0) :
  let rb' := state_after (step l r a) rb in
  (_x_pos_EFCS rb' - _x_pos_EFCS rb) ^ 2 + (_y_pos_EFCS rb' - _y_pos_EFCS rb) ^ 2
  = (vel rb' * _dt rb) ^ 2.
Proof.
  intros rb'. subst rb'. unfold state_after. rewrite robot_step_run. cbv zeta.
  destruct (Req_dec_T (_axis_len rb) 0); [contradiction|]. cbn [fst].
  cbn [_x_pos_EFCS _y_pos_EFCS vel set_pointing_angle set_y_pos_EFCS
       set_x_pos_EFCS set_vel].
  pose proof (scaled_direction_norm
                (_wheel_radius rb * _dt rb / 2 * (l + r)) (pointing_angle rb))
    as Hn.
  replace (_wheel_radius rb / 2 * (l + r) * _dt rb)
    with (_wheel_radius rb * _dt rb / 2 * (l + r)) by field.
  rewrite <- Hn. ring.
Qed.

Lemma robot_step_travels_vel_dt_witness :
  let rb := default_robot 0 0 in
  let rb' := state_after (step 5 4 ball_model.NO) rb in
  (_x_pos_EFCS rb' - _x_pos_EFCS rb) ^ 2 + (_y_pos_EFCS rb' - _y_pos_EFCS rb) ^ 2
  = (vel rb' * _dt rb) ^ 2.
Proof.
  intros rb rb'.
  assert (Haxis : _axis_len rb <> 0) by (cbn; lra).
  exact (robot_step_travels_vel_dt rb 5 4 ball_model.NO Haxis).
Defined.

Lemma clip_angle_small (a : R) : - PI <= a <= PI -> clip_angle a = a.
Proof.
  intros Ha. unfold clip_angle.
  destruct (Rgt_dec (Rabs a) PI) as [Hbig|_]; [| reflexivity].
  exfalso. assert (Rabs a <= PI) by (apply Rabs_le; lra). lra.
Qed.

(** X15: equal and opposite wheel speeds turn the robot on the spot, and
    equal wheel speeds drive it straight: with a heading in [-PI, PI] the
    heading stays and the robot advances by [wheel_radius * dt * speed]
    along it. *)
Theorem spin_and_straight_drive
        (rb : RobotModel) (w : R) (a : ball_model.BallActions)
        (Haxis : _axis_len rb <> 0)
        (Hheading : - PI <= pointing_angle rb <= PI) :
  let spun := state_after (step w (- w) a) rb in
  let driven := state_after (step w w a) rb in
  (_x_pos_EFCS spun = _x_pos_EFCS rb /\ _y_pos_EFCS spun = _y_pos_EFCS rb
   /\ vel spun = 0
   /\ pointing_angle spun
      = clip_angle (pointing_angle rb + heading_change rb w (- w)))
  /\ (pointing_angle driven = pointing_angle rb
      /\ _x_pos_EFCS driven
         = _x_pos_EFCS rb
           + _wheel_radius rb * _dt rb * w * cos (pointing_angle rb)
      /\ _y_pos_EFCS driven
         = _y_pos_EFCS rb
           + _wheel_radius rb * _dt rb * w * sin (pointing_angle rb)).
Proof.
  intros spun driven. subst spun driven. unfold state_after.
  rewrite !robot_step_run. cbv zeta.
  destruct (Req_dec_T (_axis_len rb) 0); [contradiction|].
  cbn [fst _x_pos_EFCS _y_pos_EFCS vel pointing_angle set_pointing_angle
       set_y_pos_EFCS set_x_pos_EFCS set_vel].
  split.
  - repeat split; ring.
  - assert (Hzero : heading_change rb w w = 0).
    { unfold heading_change. ring. }
    rewrite Hzero, Rplus_0_r, (clip_angle_small _ Hheading).
    repeat split; field.
Qed.

Lemma spin_and_straight_drive_witness :
  pointing_angle (state_after (step 5 5 ball_model.NO) (default_robot 0 0))
  = pointing_angle (default_robot 0 0).
Proof.
  pose proof PI_bounds as Hpi.
  assert (Haxis : _axis_len (default_robot 0 0) <> 0) by (cbn; lra).
  assert (Hh : - PI <= pointing_angle (default_robot 0 0) <= PI) by (cbn; lra).
  exact (proj1 (proj2 (spin_and_straight_drive
                         (default_robot 0 0) 5 ball_model.NO Haxis Hh))).
Defined.

Lemma clip_angle_direction (a : R) :
  cos (clip_angle a) = cos a /\ sin (clip_angle a) = sin a.
Proof.
  unfold clip_angle, np_sign.
  destruct (Rgt_dec (Rabs a) PI) as [_|_]; [| split; reflexivity].
  destruct (Rlt_dec a 0) as [_|_]; [| destruct (Rlt_dec 0 a) as [_|_]].
  - replace (a - 2 * PI * -1) with (a + 2 * INR 1 * PI) by (cbn; ring).
    split; [apply cos_period | apply sin_period].
  - rewrite <- (cos_period (a - 2 * PI * 1) 1), <- (sin_period (a - 2 * PI * 1) 1).
    replace (a - 2 * PI * 1 + 2 * INR 1 * PI) with a by (cbn; ring).
    split; reflexivity.
  - replace (a - 2 * PI * 0) with a by ring. split; reflexivity.
Qed.

(** X16: the wrap of the heading never changes the direction the robot
    points in.  After a [step] that returns, the cosine and sine of the
    heading are those of the old heading plus the heading change, however
    large the change was. *)
Theorem wrapped_heading_points_the_same_way
        (rb : RobotModel) (l r : R) (a : ball_model.BallActions)
        (Haxis : _axis_len rb <> 0) :
  let rb' := state_after (step l r a) rb in
  cos (pointing_angle rb') = cos (pointing_angle rb + heading_change rb l r)
  /\ sin (pointing_angle rb') = sin (pointing_angle rb + heading_change rb l r).
Proof.
  intros rb'. subst rb'. unfold state_after. rewrite robot_step_run. cbv zeta.
  destruct (Req_dec_T (_axis_len rb) 0); [contradiction|].
  cbn [fst pointing_angle set_pointing_angle]. apply clip_angle_direction.
Qed.

Lemma wrapped_heading_points_the_same_way_witness :
  let rb := default_robot 0 0 in
  cos (pointing_angle (state_after (step 200 (-200) ball_model.NO) rb))
  = cos (pointing_angle rb + heading_change rb 200 (-200)).
Proof.
  intros rb.
  assert (Haxis : _axis_len rb <> 0) by (cbn; lra).
  exact (proj1 (wrapped_heading_points_the_same_way
                  rb 200 (-200) ball_model.NO Haxis)).
Defined.

Lemma robot_step_idle (rb : RobotModel) :
  _axis_len rb <> 0 -> vel rb = 0 -> - PI <= pointing_angle rb <= PI ->
  step 0 0 ball_model.NO rb = (rb, Returned ball_model.NO).
Proof.
  intros Haxis Hvel Hh. rewrite robot_step_run. cbv zeta.
  destruct (Req_dec_T (_axis_len rb) 0); [contradiction|].
  assert (Hzero : heading_change rb 0 0 = 0).
  { unfold heading_change. ring. }
  rewrite Hzero, Rplus_0_r, (clip_angle_small _ Hh).
  destruct rb as [dt th v rot x y rr wr ax]. cbn in *. subst v.
  unfold set_pointing_angle, set_y_pos_EFCS, set_x_pos_EFCS, set_vel. cbn.
  do 2 f_equal; ring.
Qed.

(** X17: the idle invariant of [test_stationary].  A robot that stands
    still, with a heading in [-PI, PI] and a non-zero axis length, is left
    exactly as it is by any number of [step(0, 0)] calls. *)
Theorem robot_at_rest_stays (rb : RobotModel) (n : nat)
        (Haxis : _axis_len rb <> 0) (Hvel : vel rb = 0)
        (Hheading : - PI <= pointing_angle rb <= PI) :
  repeat_method n (step 0 0 ball_model.NO ;; ret tt) rb = (rb, Returned tt).
Proof.
  induction n as [| n IH]; [reflexivity|].
  cbn [repeat_method]. unfold bind at 1. unfold bind at 1.
  rewrite (robot_step_idle rb Haxis Hvel Hheading). exact IH.
Qed.

Lemma robot_at_rest_stays_witness :
  repeat_method 1000 (step 0 0 ball_model.NO ;; ret tt) (default_robot 0 0)
  = (default_robot 0 0, Returned tt).
Proof.
  pose proof PI_bounds as Hpi.
  apply robot_at_rest_stays; cbn; [lra | reflexivity | lra].
Defined.

(** *** Angular distance *)

Lemma py_mod_range (x m : R) : 0 < m -> 0 <= py_mod x m < m.
Proof.
  intros Hm. unfold py_mod.
  pose proof (Int_part_bounds (x / m)) as Hf.
  set (f := IZR (Int_part (x / m))) in *.
  assert (Hx : x = x / m * m) by (field; lra).
  set (u := x / m) in *. clearbody u f. subst x. nra.
Qed.

Lemma get_diff_angle_small (a b : R) :
  Rabs (a - b) <= PI -> get_diff_angle a b = Rabs (a - b).
Proof.
  intros Hab. pose proof PI_RGT_0 as Hpi.
  apply Rabs_le_bounds in Hab.
  unfold get_diff_angle, py_mod.
  set (t := a - b + PI).
  destruct (Rle_lt_or_eq_dec t (2 * PI)) as [Hlt|Heq]; [subst t; lra | |].
  - assert (Ht0 : 0 <= t) by (unfold t; lra).
    assert (Hf : Int_part (t / (2 * PI)) = 0%Z).
    { symmetry. apply Int_part_spec. clearbody t.
      assert (Hu : t = t / (2 * PI) * (2 * PI)) by (field; lra).
      set (u := t / (2 * PI)) in *. clearbody u. subst t.
      assert (0 <= u < 1) by nra. cbn. lra. }
    rewrite Hf. f_equal. subst t. cbn. lra.
  - assert (Hf : Int_part (t / (2 * PI)) = 1%Z).
    { symmetry. apply Int_part_spec. rewrite Heq.
      replace (2 * PI / (2 * PI)) with 1 by (field; lra). cbn. lra. }
    rewrite Hf, Heq.
    replace (2 * PI - 1 * (2 * PI) - PI) with (- PI) by ring.
    replace (a - b) with PI by (subst t; lra).
    apply Rabs_Ropp.
Qed.

(** X18: the angular distance [get_diff_angle] always lies in [0, PI],
    and it is [|a - b|] whenever that is at most [PI]. *)
Theorem angular_distance_range :
  forall a b : R,
    0 <= get_diff_angle a b <= PI
    /\ (Rabs (a - b) <= PI -> get_diff_angle a b = Rabs (a - b)).
Proof.
  intros a b. pose proof PI_RGT_0 as Hpi.
  split; [| apply get_diff_angle_small].
  unfold get_diff_angle.
  assert (Hm : 0 < 2 * PI) by lra.
  pose proof (py_mod_range (a - b + PI) (2 * PI) Hm) as Hr.
  split; [apply Rabs_pos | apply Rabs_le; lra].
Qed.

(** *** The collision step *)

Lemma collision_step_run
      (T : Type) (C : Collidable T)
      (wall_collision players_collision : CollisionTypes)
      (collision_list : list T) (l r : R) (a : ball_model.BallActions)
      (rb : RobotModel) :
  collision_step wall_collision players_collision collision_list l r a rb
  = match collision_restriction wall_collision players_collision
                                collision_list rb with
    | (rb1, Returned (blocker_angle, restricted_angle)) =>
        (step_with_restrictions blocker_angle restricted_angle l r ;; ret a) rb1
    | (rb1, Raised e) => (rb1, Raised e)
    end.
Proof.
  unfold collision_step. unfold bind at 1.
  destruct (collision_restriction wall_collision players_collision
                                  collision_list rb) as [rb1 [[b1 b2]|e]];
    reflexivity.
Qed.

Lemma state_after_then_ret {St A B : Type} (c : M St A) (b : B) (s : St) :
  state_after (c ;; ret b) s = state_after c s.
Proof.
  unfold state_after, bind, ret. destruct (c s) as [s' [a|e]]; reflexivity.
Qed.

Lemma ending_then_ret {St A B : Type} (c : M St A) (b v : B) (s : St) :
  ending (c ;; ret b) s = Returned v -> v = b.
Proof.
  unfold ending, bind, ret. destruct (c s) as [s' [a|e]]; cbn.
  - intros E. injection E as <-. reflexivity.
  - discriminate.
Qed.

Lemma not_player_eqb (players_collision : CollisionTypes) :
  players_collision <> PLAYER ->
  CollisionTypes_eqb players_collision PLAYER = false.
Proof.
  destruct players_collision; try reflexivity. contradiction.
Qed.

(** X19: a robot at the wall on its right (x > 0, vertical wall, no
    player collision) that points at the wall, heading within [PI/2] of
    the x axis.  Driving forward it is held: after [collision_step] it
    stands at the rounded x and its old y.  Driving backward with a
    heading strictly inside the sector it is free: [collision_step] is the
    plain [step] taken from the rounded position. *)
Theorem robot_held_at_the_right_wall
        (T : Type) (C : Collidable T) (rb : RobotModel)
        (players_collision : CollisionTypes) (collision_list : list T)
        (l r : R) (a : ball_model.BallActions)
        (Hplayers : players_collision <> PLAYER)
        (Hx : _x_pos_EFCS rb > 0)
        (Hheading : - (PI / 2) <= pointing_angle rb <= PI / 2) :
  let rb' := state_after (collision_step WALL_VERTICAL players_collision
                                         collision_list l r a) rb in
  let snapped := set_x_pos_EFCS (np_round (_x_pos_EFCS rb)) rb in
  (l + r > 0 ->
   _x_pos_EFCS rb' = np_round (_x_pos_EFCS rb)
   /\ _y_pos_EFCS rb' = _y_pos_EFCS rb
   /\ pointing_angle rb'
      = pointing_angle (state_after (step l r ball_model.NO) rb))
  /\ (l + r < 0 -> - (PI / 2) < pointing_angle rb < PI / 2 ->
      rb' = state_after (step l r ball_model.NO) snapped).
Proof.
  intros rb' snapped. pose proof PI_RGT_0 as Hpi.
  assert (Hrestr : collision_restriction WALL_VERTICAL players_collision
                                         collision_list rb
                   = (snapped, Returned (0, PI / 2))).
  { unfold collision_restriction. run_method.
    rewrite (not_player_eqb _ Hplayers). cbn.
    destruct (Rgt_dec (_x_pos_EFCS rb) 0); [reflexivity | contradiction]. }
  assert (Hrb' : rb' = state_after (step_with_restrictions 0 (PI / 2) l r) snapped).
  { subst rb'. unfold state_after at 1. rewrite collision_step_run, Hrestr.
    apply (state_after_then_ret (step_with_restrictions 0 (PI / 2) l r) a snapped). }
  pose proof (step_with_restrictions_run 0 (PI / 2) l r snapped) as Hrun.
  cbv zeta in Hrun.
  split.
  - intros Hfwd.
    assert (Hdiff : get_diff_angle 0 (travel_heading snapped ((l + r) / 2))
                    = Rabs (pointing_angle rb)).
    { unfold travel_heading.
      destruct (Rgt_dec ((l + r) / 2) 0); [| lra].
      cbn [snapped pointing_angle set_x_pos_EFCS].
      rewrite get_diff_angle_small.
      - replace (0 - pointing_angle rb) with (- pointing_angle rb) by ring.
        apply Rabs_Ropp.
      - apply Rabs_le. lra. }
    rewrite Hdiff in Hrun.
    destruct (Req_dec_T ((l + r) / 2) 0) as [E|_]; [lra|].
    destruct (Rgt_dec (Rabs (pointing_angle rb)) (PI / 2)) as [Hout|_].
    { exfalso. assert (Rabs (pointing_angle rb) <= PI / 2) by (apply Rabs_le; lra).
      lra. }
    rewrite Hrb'. unfold state_after at 1 2 3. rewrite Hrun.
    fold (state_after (step (l - (l + r) / 2) (r - (l + r) / 2) ball_model.NO ;;
                       ret tt) snapped).
    rewrite state_after_then_ret.
    destruct (balanced_step l r snapped) as (Bx & By & Bh).
    rewrite Bx, By, Bh. repeat split.
    unfold state_after. rewrite !robot_step_run. cbv zeta.
    cbn [snapped _axis_len set_x_pos_EFCS].
    destruct (Req_dec_T (_axis_len rb) 0); reflexivity.
  - intros Hback Hstrict.
    assert (Hdiff : get_diff_angle 0 (travel_heading snapped ((l + r) / 2))
                    > PI / 2).
    { unfold travel_heading.
      destruct (Rgt_dec ((l + r) / 2) 0); [lra|].
      cbn [snapped pointing_angle set_x_pos_EFCS].
      unfold clip_angle.
      destruct (Rgt_dec (Rabs (pointing_angle rb + PI)) PI) as [Hbig|Hsmall].
      - rewrite Rabs_pos_eq in Hbig by lra.
        rewrite np_sign_pos by lra.
        rewrite get_diff_angle_small; [| apply Rabs_le; lra].
        rewrite Rabs_pos_eq by lra. lra.
      - apply Rnot_gt_le in Hsmall. rewrite Rabs_pos_eq in Hsmall by lra.
        rewrite get_diff_angle_small; [| apply Rabs_le; lra].
        rewrite Rabs_left1 by lra. lra. }
    rewrite Hrb'. unfold state_after at 1. rewrite Hrun.
    destruct (Req_dec_T ((l + r) / 2) 0) as [E|_]; [lra|].
    destruct (Rgt_dec (get_diff_angle 0 (travel_heading snapped ((l + r) / 2)))
                      (PI / 2)) as [_|N]; [| contradiction].
    apply (state_after_then_ret (step l r ball_model.NO) tt snapped).
Qed.

(** A default robot at x = 4.6 that drives straight at the wall. *)
Lemma robot_held_at_the_right_wall_witness :
  let rb := default_robot 4.6 0 in
  let rb' := state_after (collision_step WALL_VERTICAL NO (@nil RobotModel)
                                         5 5 ball_model.NO) rb in
  _x_pos_EFCS rb' = np_round (_x_pos_EFCS rb)
  /\ _y_pos_EFCS rb' = _y_pos_EFCS rb
  /\ pointing_angle rb'
     = pointing_angle (state_after (step 5 5 ball_model.NO) rb).
Proof.
  intros rb rb'. pose proof PI_RGT_0 as Hpi.
  assert (Hplayers : NO <> PLAYER) by discriminate.
  assert (Hx : _x_pos_EFCS rb > 0) by (cbn; lra).
  assert (Hh : - (PI / 2) <= pointing_angle rb <= PI / 2) by (cbn; lra).
  assert (Hfwd : 5 + 5 > 0) by lra.
  exact (proj1 (robot_held_at_the_right_wall
                  RobotModel RobotModel_Collidable rb NO [] 5 5 ball_model.NO
                  Hplayers Hx Hh) Hfwd).
Defined.

(** X20: how [collision_step] fails and what it ignores.  Called with no
    collision at all it raises [ValueError]; called with a player
    collision and an empty list it raises [IndexError]; in both cases the
    robot is untouched.  A player collision takes precedence: the wall
    argument then plays no part and no coordinate is rounded.  Whenever
    the call returns, it returns the [extra_action] it was given. *)
Theorem collision_step_errors_and_precedence :
  forall (T : Type) (C : Collidable T) (rb : RobotModel)
         (wall_collision players_collision : CollisionTypes)
         (collision_list : list T) (l r : R) (a : ball_model.BallActions),
    (players_collision <> PLAYER ->
     collision_step NO players_collision collision_list l r a rb
     = (rb, Raised ValueError))
    /\ collision_step wall_collision PLAYER (@nil T) l r a rb
       = (rb, Raised IndexError)
    /\ (forall other_wall : CollisionTypes,
           collision_step wall_collision PLAYER collision_list l r a rb
           = collision_step other_wall PLAYER collision_list l r a rb)
    /\ state_after (collision_restriction wall_collision PLAYER collision_list)
                   rb = rb
    /\ (forall v : ball_model.BallActions,
           ending (collision_step wall_collision players_collision
                                  collision_list l r a) rb = Returned v ->
           v = a).
Proof.
  intros T C rb w p cl l r a.
  split; [| split; [| split; [| split]]].
  - intros Hp. rewrite collision_step_run.
    unfold collision_restriction. run_method.
    rewrite (not_player_eqb _ Hp). reflexivity.
  - rewrite collision_step_run. reflexivity.
  - intros w'. rewrite !collision_step_run. reflexivity.
  - unfold state_after, collision_restriction. run_method. cbn.
    destruct cl as [| o cl']; [reflexivity|].
    destruct (collision_object.get_position_components_wcs o) as [[ox oy]|e];
      [| reflexivity].
    destruct (get_position_components_wcs rb) as [[sx sy]|e]; reflexivity.
  - intros v. unfold ending. rewrite collision_step_run.
    destruct (collision_restriction w p cl rb) as [rb1 [[b1 b2]|e]];
      [| discriminate].
    apply (ending_then_ret (step_with_restrictions b1 b2 l r) a v rb1).
Qed.

Lemma np_round_of_integer (z : Z) : np_round (IZR z) = IZR z.
Proof.
  unfold np_round.
  assert (Hf : Int_part (IZR z) = z).
  { symmetry. apply Int_part_spec. lra. }
  rewrite Hf.
  destruct (Rlt_dec (IZR z - IZR z) (1 / 2)) as [_|N]; [reflexivity | lra].
Qed.

Lemma np_round_idempotent (x : R) : np_round (np_round x) = np_round x.
Proof.
  destruct (np_round_nearest x) as [[z [Hz _]] _].
  rewrite Hz. apply np_round_of_integer.
Qed.

(** X21: the rounding of a collision is idempotent.  Whatever the
    arguments, running the first phase of [collision_step] (the part
    before the motion step) a second time leaves the robot where the
    first run left it; [np.round] fixes every integer. *)
Theorem snapping_is_idempotent :
  forall (T : Type) (C : Collidable T) (rb : RobotModel)
         (wall_collision players_collision : CollisionTypes)
         (collision_list : list T),
    let snap := state_after (collision_restriction wall_collision
                               players_collision collision_list) in
    snap (snap rb) = snap rb
    /\ (forall z : Z, np_round (IZR z) = IZR z).
Proof.
  intros T C rb w p cl snap.
  split; [| exact np_round_of_integer].
  assert (Hsnap : forall s : RobotModel,
             snap s
             = if CollisionTypes_eqb p PLAYER then s
               else match w with
                    | NO => s
                    | WALL_VERTICAL =>
                        set_x_pos_EFCS (np_round (_x_pos_EFCS s)) s
                    | WALL_HORIZONTAL =>
                        set_y_pos_EFCS (np_round (_y_pos_EFCS s)) s
                    | _ =>
                        set_y_pos_EFCS (np_round (_y_pos_EFCS s))
                          (set_x_pos_EFCS (np_round (_x_pos_EFCS s)) s)
                    end).
  { intros s. subst snap. unfold state_after, collision_restriction. run_method.
    destruct (CollisionTypes_eqb p PLAYER).
    - destruct cl as [| o cl']; [reflexivity|].
      destruct (collision_object.get_position_components_wcs o) as [[ox oy]|e];
        [| reflexivity].
      destruct (get_position_components_wcs s) as [[sx sy]|e]; reflexivity.
    - destruct w; reflexivity. }
  rewrite !Hsnap.
  destruct (CollisionTypes_eqb p PLAYER); [reflexivity|].
  destruct w; try reflexivity;
    unfold set_x_pos_EFCS, set_y_pos_EFCS; cbn;
    rewrite ?np_round_idempotent; reflexivity.
Qed.




End RobotCoverage.
